(** * swagger-to-postman-ai-agent: chunk extraction, embedding cache,
      embedding engine and vector store, embedded in Rocq.

    The development follows the Python sources module by module:

    - [Py]               the fragment of Python's data model and built-ins the
                         sources rely on (str methods, dict/list protocol,
                         repr, json.dumps, UTF-8);
    - [SHA256]           hashlib.sha256 (FIPS 180-4) on byte lists;
    - [Constants]        backend/utils/constants.py;
    - [SwaggerChunker]   backend/chunking/swagger_chunker.py;
    - [EmbeddingCache]   backend/embeddings/embedding_cache.py;
    - [EmbeddingEngine]  backend/embeddings/embedding_engine.py;
    - [VectorStore]      backend/embeddings/vector_store.py;
    - [SchemaParser]     backend/utils/schema_parser.py;
    - [PromptBuilder]    backend/prompt_engine/prompt_builder.py.

    Strings are lists of characters ([list ascii]); a character is a code
    point below 256.  Exceptions are values of [exn]; a computation that may
    raise returns a [result]. *)

From Stdlib Require Import ZArith NArith List String Ascii Lia Bool.
From Stdlib Require Import DecimalString.
From stdpp Require Import base gmap strings list.
Import ListNotations.
Set Warnings "-register-all".
Open Scope string_scope.
Open Scope list_scope.

(** A Python [str]: the sequence of its code points. *)
Abbreviation str := (list ascii).

(** String literals are read as [str]. *)
Coercion list_ascii_of_string : string >-> list.

(* ===================================================================== *)
(** * Python data model and built-ins                                     *)
(* ===================================================================== *)

Module Py.

(** ** Exceptions and results *)

Inductive exn : Type :=
| KeyError (msg : str)
| AttributeError (msg : str)
| TypeError
| ValueError (msg : str)
| IndexError
| UnicodeDecodeError
| JSONDecodeError
| OSError
| Timeout
| RecursionError.

Inductive result (A : Type) : Type :=
| Ok (a : A)
| Raise (e : exn).
Arguments Ok {A} a.
Arguments Raise {A} e.

Definition bind {A B : Type} (r : result A) (k : A -> result B) : result B :=
  match r with
  | Ok a => k a
  | Raise e => Raise e
  end.

Notation "x <- e ;; k" := (bind e (fun x => k))
  (at level 100, e at next level, right associativity).

Fixpoint mapM {A B : Type} (f : A -> result B) (l : list A) : result (list B) :=
  match l with
  | [] => Ok []
  | a :: l' => b <- f a ;; bs <- mapM f l' ;; Ok (b :: bs)
  end.

Definition is_ok {A : Type} (r : result A) : bool :=
  match r with Ok _ => true | Raise _ => false end.

(** In a hypothesis [H] that says a sequence of binds returned, case on
    the first computation: it returned too. *)
Ltac bind_ok H :=
  match type of H with
  | context [bind ?r _] =>
      let e := fresh "e" in
      destruct r as [?|e] eqn:?; cbn [bind] in H; [|discriminate H]
  end.

(** ** Characters *)

Definition dq : ascii := "034"%char.   (* the double quote *)
Definition sq : ascii := "039"%char.   (* the single quote *)
Definition bsl : ascii := "092"%char.  (* the backslash *)
Definition nl : ascii := "010"%char.
Definition cr : ascii := "013"%char.
Definition tab : ascii := "009"%char.
Definition bksp : ascii := "008"%char.
Definition ff : ascii := "012"%char.

Definition code (c : ascii) : N := N_of_ascii c.

Definition in_range (lo hi : N) (c : ascii) : bool :=
  (lo <=? code c)%N && (code c <=? hi)%N.

(** [str.isspace] on one character (code points below 256). *)
Definition is_space (c : ascii) : bool :=
  in_range 9 13 c || in_range 28 32 c || (code c =? 133)%N || (code c =? 160)%N.

(** [str.isprintable] on one character, as [repr] uses it. *)
Definition is_printable (c : ascii) : bool :=
  in_range 32 126 c || (in_range 161 255 c && negb (code c =? 173)%N).

Definition lower_char (c : ascii) : ascii :=
  if in_range 65 90 c || (in_range 192 222 c && negb (code c =? 215)%N)
  then ascii_of_N (code c + 32) else c.

(** [str.upper] on one ASCII letter; the sources apply it to the five
    lower-case method names only. *)
Definition upper_char (c : ascii) : ascii :=
  if in_range 97 122 c then ascii_of_N (code c - 32) else c.

Definition hex_digit (n : N) : ascii :=
  if (n <? 10)%N then ascii_of_N (48 + n) else ascii_of_N (87 + n).

Definition hex2 (n : N) : str := [hex_digit (n / 16 mod 16); hex_digit (n mod 16)].

(** ** str methods *)

Definition lower (s : str) : str := map lower_char s.
Definition upper (s : str) : str := map upper_char s.

Fixpoint drop_while (p : ascii -> bool) (s : str) : str :=
  match s with
  | [] => []
  | c :: s' => if p c then drop_while p s' else s
  end.

Definition lstrip_by (p : ascii -> bool) (s : str) : str := drop_while p s.
Definition rstrip_by (p : ascii -> bool) (s : str) : str := rev (drop_while p (rev s)).

(** [s.strip()] *)
Definition strip (s : str) : str := rstrip_by is_space (lstrip_by is_space s).

(** [s.lstrip(chars)] *)
Definition lstrip (chars : str) (s : str) : str :=
  lstrip_by (fun c => existsb (Ascii.eqb c) chars) s.

(** [s.split(sep)] for a one-character separator. *)
Fixpoint split (sep : ascii) (s : str) : list str :=
  match s with
  | [] => [[]]
  | c :: s' =>
      if Ascii.eqb c sep then [] :: split sep s'
      else match split sep s' with
           | h :: t => (c :: h) :: t
           | [] => [[c]]
           end
  end.

(** [s.replace(a, b)] for one-character [a] and [b]. *)
Definition replace (a b : ascii) (s : str) : str :=
  map (fun c => if Ascii.eqb c a then b else c) s.

(** [sep.join(parts)] *)
Fixpoint join (sep : str) (parts : list str) : str :=
  match parts with
  | [] => []
  | [p] => p
  | p :: rest => p ++ sep ++ join sep rest
  end.

Fixpoint starts_with (p s : str) : bool :=
  match p, s with
  | [], _ => true
  | _ :: _, [] => false
  | a :: p', b :: s' => Ascii.eqb a b && starts_with p' s'
  end.

(** [p in s] for strings: substring test. *)
Fixpoint substring_of (p s : str) : bool :=
  starts_with p s ||
  match s with
  | [] => false
  | _ :: s' => substring_of p s'
  end.

Definition str_eqb (a b : str) : bool := bool_decide (a = b).

(** Code-point order, as [sorted] and [<] compare strings. *)
Fixpoint str_ltb (a b : str) : bool :=
  match a, b with
  | [], [] => false
  | [], _ :: _ => true
  | _ :: _, [] => false
  | x :: a', y :: b' =>
      if (code x <? code y)%N then true
      else if (code y <? code x)%N then false
      else str_ltb a' b'
  end.

(** [s.encode("utf-8")]. *)
Definition utf8_char (c : ascii) : list N :=
  if (code c <? 128)%N then [code c]
  else [(192 + code c / 64)%N; (128 + code c mod 64)%N].

Definition encode_utf8 (s : str) : list N := flat_map utf8_char s.

Definition continuation (b : N) : bool := (128 <=? b)%N && (b <=? 191)%N.

(** Whether [bytes.decode("utf-8")] accepts the bytes (strict decoding:
    no overlong forms, no surrogates, nothing above U+10FFFF). *)
Fixpoint utf8_valid (bytes : list N) : bool :=
  match bytes with
  | [] => true
  | b0 :: rest =>
      if (b0 <? 128)%N then utf8_valid rest
      else if (194 <=? b0)%N && (b0 <=? 223)%N then
        match rest with
        | b1 :: rest' => continuation b1 && utf8_valid rest'
        | _ => false
        end
      else if (224 <=? b0)%N && (b0 <=? 239)%N then
        match rest with
        | b1 :: b2 :: rest' =>
            continuation b1 && continuation b2
            && (if (b0 =? 224)%N then (160 <=? b1)%N else true)
            && (if (b0 =? 237)%N then (b1 <=? 159)%N else true)
            && utf8_valid rest'
        | _ => false
        end
      else if (240 <=? b0)%N && (b0 <=? 244)%N then
        match rest with
        | b1 :: b2 :: b3 :: rest' =>
            continuation b1 && continuation b2 && continuation b3
            && (if (b0 =? 240)%N then (144 <=? b1)%N else true)
            && (if (b0 =? 244)%N then (b1 <=? 143)%N else true)
            && utf8_valid rest'
        | _ => false
        end
      else false
  end.

(** [pathlib.PurePosixPath(p).name]: the last component, where empty and
    "." components do not count. *)
Definition path_name (p : str) : str :=
  List.last
    (List.filter (fun part => negb (str_eqb part "") && negb (str_eqb part ".")) (split "/" p))
    [].

(** ** Values: the trees [json.load] and [yaml.safe_load] build *)

Inductive json : Type :=
| JNull                              (* None *)
| JBool (b : bool)
| JInt (z : Z)
| JFloat (r : str)                   (* a float, carried by its repr; inf, -inf, nan *)
| JStr (s : str)
| JList (l : list json)
| JDict (d : list (str * json)).     (* insertion-ordered dict, str keys *)

Definition type_name (v : json) : str :=
  match v with
  | JNull => "NoneType"
  | JBool _ => "bool"
  | JInt _ => "int"
  | JFloat _ => "float"
  | JStr _ => "str"
  | JList _ => "list"
  | JDict _ => "dict"
  end.

(** The message of the AttributeError raised by [v.attr] when [v] has no
    such attribute. *)
Definition no_attribute (v : json) (attr : str) : exn :=
  AttributeError ([sq] ++ type_name v ++ [sq] ++ " object has no attribute " ++ [sq] ++ attr ++ [sq]).

Fixpoint assoc {V : Type} (k : str) (d : list (str * V)) : option V :=
  match d with
  | [] => None
  | (k', v) :: d' => if str_eqb k k' then Some v else assoc k d'
  end.

Definition has_key {V : Type} (k : str) (d : list (str * V)) : bool :=
  match assoc k d with Some _ => true | None => false end.

(** [d[k] = v] on an insertion-ordered dict. *)
Fixpoint dict_set {V : Type} (k : str) (v : V) (d : list (str * V)) : list (str * V) :=
  match d with
  | [] => [(k, v)]
  | (k', v') :: d' => if str_eqb k k' then (k, v) :: d' else (k', v') :: dict_set k v d'
  end.

(** [v.get(k, default)] *)
Definition get_default (v : json) (k : str) (default : json) : result json :=
  match v with
  | JDict d => Ok (match assoc k d with Some x => x | None => default end)
  | _ => Raise (no_attribute v "get")
  end.

(** [v.get(k)]: None when the key is absent. *)
Definition get (v : json) (k : str) : result json := get_default v k JNull.

(** [v.items()] *)
Definition items (v : json) : result (list (str * json)) :=
  match v with
  | JDict d => Ok d
  | _ => Raise (no_attribute v "items")
  end.

(** [v.keys()] *)
Definition keys (v : json) : result (list str) :=
  match v with
  | JDict d => Ok (map fst d)
  | _ => Raise (no_attribute v "keys")
  end.

(** [for x in v]: the elements a loop over [v] visits. *)
Definition iter (v : json) : result (list json) :=
  match v with
  | JList l => Ok l
  | JDict d => Ok (map (fun kv => JStr (fst kv)) d)
  | JStr s => Ok (map (fun c => JStr [c]) s)
  | _ => Raise TypeError
  end.

Definition is_str (k : str) (v : json) : bool :=
  match v with JStr s => str_eqb k s | _ => false end.

(** [k in v] for a str [k]. *)
Definition contains (k : str) (v : json) : result bool :=
  match v with
  | JDict d => Ok (has_key k d)
  | JList l => Ok (existsb (is_str k) l)
  | JStr s => Ok (substring_of k s)
  | _ => Raise TypeError
  end.

(** [bool(v)] *)
Definition truthy (v : json) : bool :=
  match v with
  | JNull => false
  | JBool b => b
  | JInt z => negb (z =? 0)%Z
  | JFloat r => negb (str_eqb r "0.0" || str_eqb r "-0.0")
  | JStr s => negb (str_eqb s "")
  | JList l => match l with [] => false | _ => true end
  | JDict d => match d with [] => false | _ => true end
  end.

Definition is_none (v : json) : bool :=
  match v with JNull => true | _ => false end.

(** ** repr and str *)

Definition decimal (z : Z) : str := NilZero.string_of_int (Z.to_int z).

Definition repr_quote (s : str) : ascii :=
  if existsb (Ascii.eqb sq) s && negb (existsb (Ascii.eqb dq) s) then dq else sq.

Definition repr_char (q c : ascii) : str :=
  if Ascii.eqb c q || Ascii.eqb c bsl then [bsl; c]
  else if Ascii.eqb c tab then "\t"
  else if Ascii.eqb c nl then "\n"
  else if Ascii.eqb c cr then "\r"
  else if is_printable c then [c]
  else "\x" ++ hex2 (code c).

Definition repr_str (s : str) : str :=
  let q := repr_quote s in [q] ++ flat_map (repr_char q) s ++ [q].

(** [repr(v)] *)
Fixpoint repr (v : json) : str :=
  match v with
  | JNull => "None"
  | JBool true => "True"
  | JBool false => "False"
  | JInt z => decimal z
  | JFloat r => r
  | JStr s => repr_str s
  | JList l => "[" ++ join ", " (map repr l) ++ "]"
  | JDict d =>
      "{" ++ join ", " (map (fun kv => let '(k, x) := kv in repr_str k ++ ": " ++ repr x) d) ++ "}"
  end.

(** [str(v)], which is what an f-string field prints. *)
Definition to_str (v : json) : str :=
  match v with
  | JStr s => s
  | _ => repr v
  end.

(** [v[k]] for a str [k]. *)
Definition getitem (v : json) (k : str) : result json :=
  match v with
  | JDict d => match assoc k d with
               | Some x => Ok x
               | None => Raise (KeyError (repr_str k))
               end
  | _ => Raise TypeError
  end.

(** ** json.dumps(v, sort_keys=True)

    On the values of [json]: trees of None, bool, int, float, str, list
    and dict with str keys, the strings being of code points below 256.
    What lies outside that type is outside this development: a str with a
    code point above 255 (json.dumps writes a character beyond U+FFFF as
    the two escapes of its surrogate pair, as it writes the two surrogates
    themselves), a tuple (written as a list), and the objects json.dumps
    raises TypeError on. *)

Definition json_char (c : ascii) : str :=
  if Ascii.eqb c dq then [bsl; dq]
  else if Ascii.eqb c bsl then [bsl; bsl]
  else if Ascii.eqb c nl then "\n"
  else if Ascii.eqb c cr then "\r"
  else if Ascii.eqb c tab then "\t"
  else if Ascii.eqb c bksp then "\b"
  else if Ascii.eqb c ff then "\f"
  else if in_range 32 126 c then [c]
  else "\u00" ++ hex2 (code c).

Definition json_str (s : str) : str := [dq] ++ flat_map json_char s ++ [dq].

Fixpoint insert_by_key (kv : str * str) (l : list (str * str)) : list (str * str) :=
  match l with
  | [] => [kv]
  | kv' :: l' => if str_ltb (fst kv') (fst kv) then kv' :: insert_by_key kv l' else kv :: l
  end.

Definition sort_by_key (l : list (str * str)) : list (str * str) :=
  fold_right insert_by_key [] l.

(** A float as json.dumps writes it: [float.__repr__], but for the three
    non-finite ones. *)
Definition json_float (r : str) : str :=
  if str_eqb r "inf" then "Infinity"
  else if str_eqb r "-inf" then "-Infinity"
  else if str_eqb r "nan" then "NaN"
  else r.

Fixpoint dumps (v : json) : str :=
  match v with
  | JNull => "null"
  | JBool true => "true"
  | JBool false => "false"
  | JInt z => decimal z
  | JFloat r => json_float r
  | JStr s => json_str s
  | JList l => "[" ++ join ", " (map dumps l) ++ "]"
  | JDict d =>
      "{" ++ join ", "
        (map (fun kx => json_str (fst kx) ++ ": " ++ snd kx)
           (sort_by_key (map (fun kv => let '(k, x) := kv in (k, dumps x)) d)))
      ++ "}"
  end.

End Py.

(* ===================================================================== *)
(** * hashlib.sha256                                                      *)
(* ===================================================================== *)

Module SHA256.

Local Open Scope N_scope.

(** 32-bit words are [N] reduced modulo [2^32]. *)
Definition modulus : N := 2 ^ 32.
Definition add32 (x y : N) : N := (x + y) mod modulus.
Definition rotr (n x : N) : N :=
  N.lor (N.shiftr x n) (N.shiftl x (32 - n) mod modulus).
Definition shr (n x : N) : N := N.shiftr x n.
Definition not32 (x : N) : N := N.lxor x (modulus - 1).

Definition Ch (x y z : N) : N := N.lxor (N.land x y) (N.land (not32 x) z).
Definition Maj (x y z : N) : N :=
  N.lxor (N.lxor (N.land x y) (N.land x z)) (N.land y z).
Definition Sigma0 (x : N) : N := N.lxor (N.lxor (rotr 2 x) (rotr 13 x)) (rotr 22 x).
Definition Sigma1 (x : N) : N := N.lxor (N.lxor (rotr 6 x) (rotr 11 x)) (rotr 25 x).
Definition sigma0 (x : N) : N := N.lxor (N.lxor (rotr 7 x) (rotr 18 x)) (shr 3 x).
Definition sigma1 (x : N) : N := N.lxor (N.lxor (rotr 17 x) (rotr 19 x)) (shr 10 x).

(** The round constants, four to a row. *)
Definition K : list N :=
  concat
    [ [0x428A2F98; 0x71374491; 0xB5C0FBCF; 0xE9B5DBA5];
      [0x3956C25B; 0x59F111F1; 0x923F82A4; 0xAB1C5ED5];
      [0xD807AA98; 0x12835B01; 0x243185BE; 0x550C7DC3];
      [0x72BE5D74; 0x80DEB1FE; 0x9BDC06A7; 0xC19BF174];
      [0xE49B69C1; 0xEFBE4786; 0x0FC19DC6; 0x240CA1CC];
      [0x2DE92C6F; 0x4A7484AA; 0x5CB0A9DC; 0x76F988DA];
      [0x983E5152; 0xA831C66D; 0xB00327C8; 0xBF597FC7];
      [0xC6E00BF3; 0xD5A79147; 0x06CA6351; 0x14292967];
      [0x27B70A85; 0x2E1B2138; 0x4D2C6DFC; 0x53380D13];
      [0x650A7354; 0x766A0ABB; 0x81C2C92E; 0x92722C85];
      [0xA2BFE8A1; 0xA81A664B; 0xC24B8B70; 0xC76C51A3];
      [0xD192E819; 0xD6990624; 0xF40E3585; 0x106AA070];
      [0x19A4C116; 0x1E376C08; 0x2748774C; 0x34B0BCB5];
      [0x391C0CB3; 0x4ED8AA4A; 0x5B9CCA4F; 0x682E6FF3];
      [0x748F82EE; 0x78A5636F; 0x84C87814; 0x8CC70208];
      [0x90BEFFFA; 0xA4506CEB; 0xBEF9A3F7; 0xC67178F2] ].

(** The eight working variables, and the hash value between blocks. *)
Record state : Type := State { sa : N; sb : N; sc : N; sd : N; se : N; sf : N; sg : N; sh : N }.

Definition H0 : state :=
  State 0x6A09E667 0xBB67AE85 0x3C6EF372 0xA54FF53A
        0x510E527F 0x9B05688C 0x1F83D9AB 0x5BE0CD19.

(** ** Padding and parsing *)

Fixpoint be_bytes (n : nat) (x : N) : list N :=
  match n with
  | O => []
  | S n' => be_bytes n' (x / 256) ++ [x mod 256]
  end.

Definition pad (msg : list N) : list N :=
  let len := N.of_nat (length msg) in
  let zeros := (64 - (len + 9) mod 64) mod 64 in
  msg ++ [128] ++ repeat 0 (N.to_nat zeros) ++ be_bytes 8 (8 * len).

Fixpoint words (fuel : nat) (bytes : list N) : list N :=
  match fuel, bytes with
  | S fuel', b0 :: b1 :: b2 :: b3 :: rest =>
      (((b0 * 256 + b1) * 256 + b2) * 256 + b3) :: words fuel' rest
  | _, _ => []
  end.

Fixpoint blocks (fuel : nat) (bytes : list N) : list (list N) :=
  match fuel, bytes with
  | S fuel', _ :: _ => words 16 (firstn 64 bytes) :: blocks fuel' (skipn 64 bytes)
  | _, _ => []
  end.

(** ** The compression function *)

Fixpoint schedule (n : nat) (w : list N) : list N :=
  match n with
  | O => w
  | S n' =>
      let t := length w in
      let x := add32 (add32 (sigma1 (nth (t - 2) w 0)) (nth (t - 7) w 0))
                     (add32 (sigma0 (nth (t - 15) w 0)) (nth (t - 16) w 0)) in
      schedule n' (w ++ [x])
  end.

Definition round (s : state) (kw : N * N) : state :=
  let (k, w) := kw in
  let T1 := add32 (add32 (add32 (sh s) (Sigma1 (se s))) (add32 (Ch (se s) (sf s) (sg s)) k)) w in
  let T2 := add32 (Sigma0 (sa s)) (Maj (sa s) (sb s) (sc s)) in
  State (add32 T1 T2) (sa s) (sb s) (sc s) (add32 (sd s) T1) (se s) (sf s) (sg s).

Definition compress (h : state) (block : list N) : state :=
  let s := fold_left round (combine K (schedule 48 block)) h in
  State (add32 (sa h) (sa s)) (add32 (sb h) (sb s)) (add32 (sc h) (sc s)) (add32 (sd h) (sd s))
        (add32 (se h) (se s)) (add32 (sf h) (sf s)) (add32 (sg h) (sg s)) (add32 (sh h) (sh s)).

Definition sha256_state (msg : list N) : state :=
  let p := pad msg in fold_left compress (blocks (length p) p) H0.

(** The digest as a 256-bit big-endian number. *)
Definition digest_of (s : state) : N :=
  ((((((sa s * modulus + sb s) * modulus + sc s) * modulus + sd s) * modulus
      + se s) * modulus + sf s) * modulus + sg s) * modulus + sh s.

Definition sha256 (msg : list N) : N := digest_of (sha256_state msg).

Fixpoint hex (digits : nat) (x : N) : str :=
  match digits with
  | O => []
  | S d => hex d (x / 16) ++ [Py.hex_digit (x mod 16)]
  end.

(** [hashlib.sha256(msg).hexdigest()] *)
Definition hexdigest (msg : list N) : str := hex 64 (sha256 msg).

End SHA256.

(* ===================================================================== *)
(** * backend/utils/constants.py                                          *)
(* ===================================================================== *)

Module Constants.

(** [class ChunkType(str, Enum)] *)
Inductive ChunkType : Type :=
| SWAGGER | POSTMAN | TEXT | ENDPOINT_DESCRIPTION | PARAMETER
| REQUEST_BODY_SCHEMA | RESPONSE_SCHEMA | ENUM_TEST_CASE
| BOOLEAN_FLAG_TEST_CASE | ERROR_CODE_CASE.

(** The members in definition order, as iterating the class visits them. *)
Definition members : list ChunkType :=
  [SWAGGER; POSTMAN; TEXT; ENDPOINT_DESCRIPTION; PARAMETER;
   REQUEST_BODY_SCHEMA; RESPONSE_SCHEMA; ENUM_TEST_CASE;
   BOOLEAN_FLAG_TEST_CASE; ERROR_CODE_CASE].

(** The str a member is (the enum mixes in [str]): what [==], dict storage
    and [json.dumps] see. *)
Definition value (m : ChunkType) : str :=
  match m with
  | SWAGGER => "swagger"
  | POSTMAN => "postman"
  | TEXT => "free_text"
  | ENDPOINT_DESCRIPTION => "endpoint_description"
  | PARAMETER => "parameter"
  | REQUEST_BODY_SCHEMA => "request_body_schema"
  | RESPONSE_SCHEMA => "response_schema"
  | ENUM_TEST_CASE => "enum_test_case"
  | BOOLEAN_FLAG_TEST_CASE => "boolean_flag_test_case"
  | ERROR_CODE_CASE => "error_code_case"
  end.

Definition name (m : ChunkType) : str :=
  match m with
  | SWAGGER => "SWAGGER"
  | POSTMAN => "POSTMAN"
  | TEXT => "TEXT"
  | ENDPOINT_DESCRIPTION => "ENDPOINT_DESCRIPTION"
  | PARAMETER => "PARAMETER"
  | REQUEST_BODY_SCHEMA => "REQUEST_BODY_SCHEMA"
  | RESPONSE_SCHEMA => "RESPONSE_SCHEMA"
  | ENUM_TEST_CASE => "ENUM_TEST_CASE"
  | BOOLEAN_FLAG_TEST_CASE => "BOOLEAN_FLAG_TEST_CASE"
  | ERROR_CODE_CASE => "ERROR_CODE_CASE"
  end.

(** [str(member)]: for an enum that mixes in [str], [Enum.__str__] is kept,
    and it prints the class and member names. *)
Definition member_str (m : ChunkType) : str := "ChunkType." ++ name m.

(** [ChunkType.values()]: [[str(member) for member in cls]]. *)
Definition values : list str := map member_str members.

(** [class VectorStoreCollections(str, Enum)] *)
Inductive VectorStoreCollections : Type :=
| SWAGGER_EMBEDDINGS | POSTMAN_EMBEDDINGS | GENERIC_TEXT_EMBEDDINGS.

Definition collection_value (c : VectorStoreCollections) : str :=
  match c with
  | SWAGGER_EMBEDDINGS => "swagger_embeddings"
  | POSTMAN_EMBEDDINGS => "postman_embeddings"
  | GENERIC_TEXT_EMBEDDINGS => "text_embeddings"
  end.

Definition METADATA_FIELD_ORIGIN : str := "chunk_origin".
Definition METADATA_FIELD_FILENAME : str := "source_file".
Definition METADATA_FIELD_TYPE : str := "chunk_type".
Definition METADATA_FIELD_HASH : str := "hash_id".

End Constants.

(* ===================================================================== *)
(** * Chunks                                                              *)
(* ===================================================================== *)

(** A chunk is a dict; a field is [None] when the dict has no such key.
    [float] is the type of the numbers of an embedding vector, which this
    code stores and passes on and never inspects. *)
Record Chunk {float : Type} : Type := mkChunk {
  chunk_id : option str;
  chunk_type : option str;
  chunk_text : option str;
  chunk_metadata : option (list (str * Py.json));
  chunk_embedding : option (list float)
}.
Arguments Chunk float : clear implicits.
Arguments mkChunk {float} _ _ _ _ _.

(* ===================================================================== *)
(** * backend/chunking/swagger_chunker.py                                 *)
(* ===================================================================== *)

Module SwaggerChunker.
Import Py Constants.

Section Chunker.
Context {float : Type}.

Record SwaggerChunker : Type := mkChunker {
  swagger : json;
  source_file : str;
  components : json;
  security_schemes : json;
  global_security : json;
  chunks : list (Chunk float)
}.

(** [SwaggerChunker.__init__] *)
Definition init (swagger : json) (source_file : str) : result SwaggerChunker :=
  c1 <- get_default swagger "components" (JDict []) ;;
  components <- get_default c1 "schemas" (JDict []) ;;
  c2 <- get_default swagger "components" (JDict []) ;;
  security_schemes <- get_default c2 "securitySchemes" (JDict []) ;;
  global_security <- get_default swagger "security" (JList []) ;;
  Ok (mkChunker swagger (path_name source_file) components security_schemes
        global_security []).

(** The loop of [_resolve_ref]: [result] is the node reached so far. *)
Fixpoint resolve_walk (ref : str) (result : json) (ref_path : list str) : Py.result json :=
  match ref_path with
  | [] => Ok result
  | part :: rest =>
      result' <- get result part ;;
      if is_none result'
      then Raise (KeyError ("Unable to resolve $ref: " ++ ref))
      else resolve_walk ref result' rest
  end.

Definition _resolve_ref (self : SwaggerChunker) (ref : str) : result json :=
  let ref_path := split "/" (lstrip "#/" ref) in
  resolve_walk ref (swagger self) ref_path.

(** [self._resolve_ref(v)] for a value [v] read from the document:
    [ref.lstrip] exists on a str only. *)
Definition resolve_value (self : SwaggerChunker) (v : json) : result json :=
  match v with
  | JStr ref => _resolve_ref self ref
  | _ => Raise (no_attribute v "lstrip")
  end.

Definition _generate_chunk_id (base : str) : str :=
  firstn 16 (SHA256.hexdigest (encode_utf8 base)).

Definition _base_metadata (self : SwaggerChunker) (chunk_type : ChunkType)
  : list (str * json) :=
  [ (METADATA_FIELD_TYPE, JStr (value chunk_type));
    (METADATA_FIELD_ORIGIN, JStr (value SWAGGER));
    (METADATA_FIELD_FILENAME, JStr (source_file self)) ].

Definition allowed_methods : list str := ["get" : str; "post" : str; "put" : str; "delete" : str; "patch" : str].

Definition method_allowed (method : str) : bool :=
  existsb (str_eqb (lower method)) allowed_methods.

(** The inner loop of [_extract_endpoints] for one path. *)
Definition path_operations (path : str) (methods : list (str * json))
  : list (str * str * json) :=
  flat_map (fun mo => let '(method, op) := mo in
              if method_allowed method then [(lower method, path, op)] else [])
           methods.

Definition _extract_endpoints (self : SwaggerChunker) : result (list (str * str * json)) :=
  paths <- get_default (swagger self) "paths" (JDict []) ;;
  entries <- items paths ;;
  per_path <- mapM (fun pm => let '(path, methods) := pm in
                      ms <- items methods ;; Ok (path_operations path ms)) entries ;;
  Ok (concat per_path).

Definition _extract_parameters (self : SwaggerChunker) (operation : json) : result json :=
  params <- get_default operation "parameters" (JList []) ;;
  params <- iter params ;;
  resolved <- mapM (fun param =>
      is_ref <- contains "$ref" param ;;
      param <- (if is_ref : bool
                then (r <- getitem param "$ref" ;; resolve_value self r)
                else Ok param) ;;
      p_name <- get param "name" ;;
      p_in <- get param "in" ;;
      p_required <- get_default param "required" (JBool false) ;;
      p_schema <- get_default param "schema" (JDict []) ;;
      p_type <- get_default p_schema "type" (JStr "string") ;;
      p_description <- get_default param "description" (JStr "") ;;
      Ok (JDict [ ("name" : str, p_name); ("in" : str, p_in); ("required" : str, p_required);
                  ("type" : str, p_type); ("description" : str, p_description) ])) params ;;
  Ok (JList resolved).

(** The loop of [_extract_request_body] over [content.items()]. *)
Fixpoint first_body (self : SwaggerChunker) (content : list (str * json))
  : result (option json) :=
  match content with
  | [] => Ok None
  | (content_type, media_obj) :: rest =>
      schema <- get media_obj "schema" ;;
      if negb (truthy schema) then first_body self rest
      else
        is_ref <- contains "$ref" schema ;;
        schema <- (if is_ref : bool
                   then (r <- getitem schema "$ref" ;; resolve_value self r)
                   else Ok schema) ;;
        Ok (Some (JDict [ ("content_type" : str, JStr content_type); ("schema" : str, schema) ]))
  end.

Definition _extract_request_body (self : SwaggerChunker) (operation : json)
  : result (option json) :=
  body <- get_default operation "requestBody" (JDict []) ;;
  content <- get_default body "content" (JDict []) ;;
  content <- items content ;;
  first_body self content.

(** The inner loop of [_extract_responses]: one response, all its media
    types, each overwriting [output[status_code]]. *)
Fixpoint response_media (self : SwaggerChunker) (status_code : str) (resp : json)
  (content : list (str * json)) (output : list (str * json)) : result (list (str * json)) :=
  match content with
  | [] => Ok output
  | (_, media_obj) :: rest =>
      schema <- get_default media_obj "schema" (JDict []) ;;
      is_ref <- contains "$ref" schema ;;
      schema <- (if is_ref : bool
                 then (r <- getitem schema "$ref" ;; resolve_value self r)
                 else Ok schema) ;;
      description <- get_default resp "description" (JStr "") ;;
      response_media self status_code resp rest
        (dict_set status_code
           (JDict [ ("description" : str, description); ("schema" : str, schema) ]) output)
  end.

Fixpoint responses_loop (self : SwaggerChunker) (responses : list (str * json))
  (output : list (str * json)) : result (list (str * json)) :=
  match responses with
  | [] => Ok output
  | (status_code, resp) :: rest =>
      content <- get_default resp "content" (JDict []) ;;
      content <- items content ;;
      output <- response_media self status_code resp content output ;;
      responses_loop self rest output
  end.

Definition _extract_responses (self : SwaggerChunker) (operation : json) : result json :=
  responses <- get_default operation "responses" (JDict []) ;;
  responses <- items responses ;;
  output <- responses_loop self responses [] ;;
  Ok (JDict output).

Definition _extract_security (self : SwaggerChunker) (operation : json) : result (list str) :=
  schemes <- get_default operation "security" (global_security self) ;;
  schemes <- iter schemes ;;
  per_scheme <- mapM keys schemes ;;
  Ok (concat per_scheme).

(** The composite text of one operation, as the f-strings of
    [extract_chunks] build it. *)
Definition base_text (method path : str) (summary parameters : json)
  (request_body : option json) (responses : json) (security : list str) : str :=
  let text := upper method ++ " " ++ path ++ [nl; nl] ++ to_str summary ++ [nl; nl]
              ++ "Parameters:" ++ [nl] ++ repr parameters ++ [nl; nl] in
  let text := match request_body with
              | Some body => text ++ "Request Body:" ++ [nl] ++ repr body ++ [nl; nl]
              | None => text
              end in
  text ++ "Responses:" ++ [nl] ++ repr responses ++ [nl; nl]
       ++ "Security: " ++ repr (JList (map JStr security)).

(** The body of the loop of [extract_chunks]: the chunk of one operation. *)
Definition operation_chunk (self : SwaggerChunker) (endpoint : str * str * json)
  : result (Chunk float) :=
  let '(method, path, operation) := endpoint in
  operation_id <- get_default operation "operationId"
                    (JStr (method ++ "_" ++ replace "/" "_" path)) ;;
  summary <- get_default operation "summary" (JStr "") ;;
  parameters <- _extract_parameters self operation ;;
  request_body <- _extract_request_body self operation ;;
  responses <- _extract_responses self operation ;;
  security <- _extract_security self operation ;;
  let text := base_text method path summary parameters request_body responses security in
  Ok (mkChunk
        (Some (_generate_chunk_id text))
        (Some (value SWAGGER))
        (Some (strip text))
        (Some (dict_set "operation_id" operation_id
                 (dict_set "path" (JStr path)
                    (dict_set "method" (JStr method)
                       (_base_metadata self SWAGGER)))))
        None).

(** The loop of [extract_chunks]; [self.chunks] keeps what was appended
    before an exception. *)
Fixpoint extract_loop (self : SwaggerChunker) (endpoints : list (str * str * json))
  : result unit * SwaggerChunker :=
  match endpoints with
  | [] => (Ok tt, self)
  | endpoint :: rest =>
      match operation_chunk self endpoint with
      | Ok chunk =>
          extract_loop
            (mkChunker (swagger self) (source_file self) (components self)
               (security_schemes self) (global_security self) (chunks self ++ [chunk]))
            rest
      | Raise e => (Raise e, self)
      end
  end.

(** [extract_chunks]: the returned list is [self.chunks] itself. *)
Definition extract_chunks (self : SwaggerChunker)
  : result (list (Chunk float)) * SwaggerChunker :=
  match _extract_endpoints self with
  | Raise e => (Raise e, self)
  | Ok endpoints =>
      match extract_loop self endpoints with
      | (Ok _, self') => (Ok (chunks self'), self')
      | (Raise e, self') => (Raise e, self')
      end
  end.

End Chunker.
Arguments SwaggerChunker float : clear implicits.

End SwaggerChunker.

(* ===================================================================== *)
(** * backend/embeddings/embedding_cache.py                               *)
(* ===================================================================== *)

Module EmbeddingCache.
Import Py.

(** The index file as the process finds it on disk. *)
Inductive file : Type :=
| Absent
| File (accessible : bool) (content : list N).

(** The [json] library on the index.  [load_index] is [json.load] on the
    decoded text of the file: the dict of vectors it returns, or the
    exception it raises, which is json.JSONDecodeError on a text that is
    no JSON, and may be another one on a text it gives up on
    (RecursionError on brackets nested too deep, ValueError on an integer
    beyond the digit limit).  [dump_index] is
    [json.dump(cache, f, indent=2)].  The parsed value has the type the
    source declares for [_cache], Dict[str, List[float]]; a JSON text of
    another shape is not covered. *)
Class IndexCodec (float : Type) : Type := {
  load_index : list N -> result (gmap str (list float));
  dump_index : gmap str (list float) -> list N
}.

Section Cache.
Context {float : Type} `{!IndexCodec float}.

(** [lock_free]: whether [FileLock(..., timeout=10)] gets the lock; when
    another process holds it for the ten seconds, filelock raises its
    Timeout, a TimeoutError. *)
Record EmbeddingCache : Type := mkCache {
  _cache : gmap str (list float);
  index_file : file;
  lock_free : bool
}.

(** The [try] block of [_load_index]. *)
Definition read_index (index_file : file) (lock_free : bool)
  : result (gmap str (list float)) :=
  if negb lock_free then Raise Timeout
  else match index_file with
       | Absent => Raise OSError
       | File accessible content =>
           if negb accessible then Raise OSError
           else if negb (utf8_valid content) then Raise UnicodeDecodeError
           else load_index content
       end.

Definition _load_index (index_file : file) (lock_free : bool)
  : result (gmap str (list float)) :=
  match index_file with
  | Absent => Ok ∅
  | File _ _ =>
      match read_index index_file lock_free with
      | Raise JSONDecodeError => Ok ∅
      | Raise Timeout => Ok ∅
      | r => r
      end
  end.

(** [EmbeddingCache.__init__] *)
Definition init (index_file : file) (lock_free : bool) : result EmbeddingCache :=
  index <- _load_index index_file lock_free ;;
  Ok (mkCache index index_file lock_free).

Definition _save_index (self : EmbeddingCache) : result unit * EmbeddingCache :=
  if negb (lock_free self) then (Raise Timeout, self)
  else match index_file self with
       | File false _ => (Raise OSError, self)
       | _ => (Ok tt, mkCache (_cache self) (File true (dump_index (_cache self))) (lock_free self))
       end.

(** [metadata or {}] *)
Definition metadata_or_empty (metadata : option (list (str * json))) : list (str * json) :=
  match metadata with
  | Some m => m
  | None => []
  end.

(** The text [_compute_hash] hashes. *)
Definition normalized (text : str) (metadata : option (list (str * json))) : str :=
  dumps (JDict [ ("text" : str, JStr (strip text));
                 ("metadata" : str, JDict (metadata_or_empty metadata)) ]).

Definition _compute_hash (text : str) (metadata : option (list (str * json))) : str :=
  SHA256.hexdigest (encode_utf8 (normalized text metadata)).

Definition get (self : EmbeddingCache) (text : str) (metadata : option (list (str * json)))
  : option (list float) :=
  let key := _compute_hash text metadata in
  _cache self !! key.

Definition add (self : EmbeddingCache) (text : str) (embedding : list float)
  (metadata : option (list (str * json))) : result unit * EmbeddingCache :=
  let key := _compute_hash text metadata in
  _save_index (mkCache (<[key := embedding]> (_cache self)) (index_file self) (lock_free self)).

Definition clear (self : EmbeddingCache) : EmbeddingCache :=
  mkCache ∅ Absent (lock_free self).

Definition size (self : EmbeddingCache) : nat := base.size (_cache self).

End Cache.
Arguments EmbeddingCache float : clear implicits.

End EmbeddingCache.

(* ===================================================================== *)
(** * backend/embeddings/embedding_engine.py                              *)
(* ===================================================================== *)

Module EmbeddingEngine.
Import Py Constants.

Section Engine.
Context {float : Type} `{!EmbeddingCache.IndexCodec float}.

(** [model] is [self.model.encode(texts, ...)] followed by [.tolist()] on
    each row: the embedding service. *)
Record EmbeddingEngine : Type := mkEngine {
  cache : EmbeddingCache.EmbeddingCache float;
  model : list str -> result (list (list float))
}.

(** [chunk[k]] *)
Definition field {A : Type} (k : str) (o : option A) : result A :=
  match o with
  | Some a => Ok a
  | None => Raise (KeyError (repr_str k))
  end.

Definition set_type (chunk : Chunk float) (ty : str) : Chunk float :=
  mkChunk (chunk_id chunk) (Some ty) (chunk_text chunk) (chunk_metadata chunk)
    (chunk_embedding chunk).

Definition set_embedding (chunk : Chunk float) (v : list float) : Chunk float :=
  mkChunk (chunk_id chunk) (chunk_type chunk) (chunk_text chunk) (chunk_metadata chunk)
    (Some v).

(** [all(k in chunk for k in ("id", "type", "text"))] *)
Definition has_required_keys (chunk : Chunk float) : bool :=
  match chunk_id chunk, chunk_type chunk, chunk_text chunk with
  | Some _, Some _, Some _ => true
  | _, _, _ => false
  end.

Definition known_type (ty : str) : bool := existsb (str_eqb ty) values.

(** The first loop of [embed_texts]. *)
Fixpoint validate (chunks : list (Chunk float)) : list (Chunk float) :=
  match chunks with
  | [] => []
  | chunk :: rest =>
      if negb (has_required_keys chunk) then validate rest
      else match chunk_type chunk with
           | Some ty =>
               (if known_type ty then chunk else set_type chunk (value TEXT)) :: validate rest
           | None => validate rest
           end
  end.

Definition type_metadata (ty : str) : option (list (str * json)) :=
  Some [ ("type" : str, JStr ty) ].


(** The second loop: [enriched_chunks] and [to_embed]. *)
Fixpoint split_cached (c : EmbeddingCache.EmbeddingCache float)
  (validated : list (Chunk float)) (enriched to_embed : list (Chunk float))
  : result (list (Chunk float) * list (Chunk float)) :=
  match validated with
  | [] => Ok (enriched, to_embed)
  | chunk :: rest =>
      text <- field "text" (chunk_text chunk) ;;
      ty <- field "type" (chunk_type chunk) ;;
      match EmbeddingCache.get c text (type_metadata ty) with
      | Some (x :: v) => split_cached c rest (enriched ++ [set_embedding chunk (x :: v)]) to_embed
      | _ => split_cached c rest enriched (to_embed ++ [chunk])
      end
  end.

(** The third loop, over [enumerate(to_embed)] from index [i]. *)
Fixpoint embed_new (c : EmbeddingCache.EmbeddingCache float)
  (to_embed : list (Chunk float)) (embeddings : list (list float)) (i : nat)
  (enriched : list (Chunk float))
  : result (list (Chunk float)) * EmbeddingCache.EmbeddingCache float :=
  match to_embed with
  | [] => (Ok enriched, c)
  | chunk :: rest =>
      match nth_error embeddings i with
      | None => (Raise IndexError, c)
      | Some vector =>
          match field "text" (chunk_text chunk), field "type" (chunk_type chunk) with
          | Ok text, Ok ty =>
              match EmbeddingCache.add c text vector (type_metadata ty) with
              | (Ok _, c') =>
                  embed_new c' rest embeddings (S i) (enriched ++ [set_embedding chunk vector])
              | (Raise e, c') => (Raise e, c')
              end
          | Raise e, _ => (Raise e, c)
          | _, Raise e => (Raise e, c)
          end
      end
  end.

Definition with_cache (self : EmbeddingEngine) (c : EmbeddingCache.EmbeddingCache float)
  : EmbeddingEngine := mkEngine c (model self).

Definition embed_texts (self : EmbeddingEngine) (chunks : list (Chunk float))
  : result (list (Chunk float)) * EmbeddingEngine :=
  let validated_chunks := validate chunks in
  match split_cached (cache self) validated_chunks [] [] with
  | Raise e => (Raise e, self)
  | Ok (enriched_chunks, to_embed) =>
      match to_embed with
      | [] => (Ok enriched_chunks, self)
      | _ :: _ =>
          match texts <- mapM (fun c => field "text" (chunk_text c)) to_embed ;; model self texts with
          | Raise e => (Raise e, self)
          | Ok embeddings =>
              let (r, c') := embed_new (cache self) to_embed embeddings 0 enriched_chunks in
              (r, with_cache self c')
          end
      end
  end.

End Engine.
Arguments EmbeddingEngine float : clear implicits.

End EmbeddingEngine.

(* ===================================================================== *)
(** * backend/embeddings/vector_store.py                                  *)
(* ===================================================================== *)

Module VectorStore.
Import Py Constants.

Section Store.
Context {float : Type}.

(** One record of a collection. *)
Record record : Type := mkRecord {
  rec_id : str;
  rec_document : str;
  rec_embedding : list float;
  rec_metadata : list (str * str)
}.

(** chromadb's [Collection.add]: the records of the collection after the
    call, or the exception chromadb raises.  The database is a
    collaborator; this code only hands the four aligned lists over. *)
Variable collection_add : list record -> list record -> result (list record).

(** [client]: the collections of the database, by name.
    [_collections]: the names whose handle is cached in memory.
    [uuid_source], [uuid_count]: the values [uuid4()] returns, in the order
    of the calls, and how many calls were made. *)
Record VectorStore : Type := mkStore {
  client : gmap str (list record);
  _collections : gset str;
  uuid_source : nat -> str;
  uuid_count : nat
}.

(** [str(uuid4())] *)
Definition uuid4 (self : VectorStore) : str * VectorStore :=
  (uuid_source self (uuid_count self),
   mkStore (client self) (_collections self) (uuid_source self) (S (uuid_count self))).

(** [[str(uuid4()) for _ in documents]] *)
Fixpoint fresh_ids (n : nat) (self : VectorStore) : list str * VectorStore :=
  match n with
  | O => ([], self)
  | S n' =>
      let (u, self1) := uuid4 self in
      let (us, self2) := fresh_ids n' self1 in
      (u :: us, self2)
  end.

Definition _load_or_create_collection (self : VectorStore) (name : VectorStoreCollections)
  : list record * VectorStore :=
  let name_str := collection_value name in
  if bool_decide (name_str ∈ _collections self)
  then (default [] (client self !! name_str), self)
  else
    let records := default [] (client self !! name_str) in
    (records,
     mkStore (<[name_str := records]> (client self)) ({[name_str]} ∪ _collections self)
       (uuid_source self) (uuid_count self)).

(** The dict display in the loop of [add_documents]: the four defaults,
    then [**base_meta]. *)
Definition enrich (base_meta : list (str * str)) (fresh : str) : list (str * str) :=
  fold_left (fun d kv => dict_set (fst kv) (snd kv) d) base_meta
    [ (METADATA_FIELD_TYPE, default ("text" : str) (assoc METADATA_FIELD_TYPE base_meta));
      (METADATA_FIELD_ORIGIN, default ("unknown" : str) (assoc METADATA_FIELD_ORIGIN base_meta));
      (METADATA_FIELD_FILENAME, default ("unknown" : str) (assoc METADATA_FIELD_FILENAME base_meta));
      (METADATA_FIELD_HASH, default fresh (assoc METADATA_FIELD_HASH base_meta)) ].

(** [metadatas[i] if metadatas and i < len(metadatas) else {}] *)
Definition base_meta_at (metadatas : option (list (list (str * str)))) (i : nat)
  : list (str * str) :=
  match metadatas with
  | Some ms => nth i ms []
  | None => []
  end.

(** The loop over [enumerate(documents)] from index [i]. *)
Fixpoint enrich_all (metadatas : option (list (list (str * str)))) (documents : list str)
  (i : nat) (self : VectorStore) : list (list (str * str)) * VectorStore :=
  match documents with
  | [] => ([], self)
  | _ :: rest =>
      let (fresh, self1) := uuid4 self in
      let m := enrich (base_meta_at metadatas i) fresh in
      let (ms, self2) := enrich_all metadatas rest (S i) self1 in
      (m :: ms, self2)
  end.

(** The four aligned lists as records. *)
Fixpoint zip_records (ids documents : list str) (embeddings : list (list float))
  (metadatas : list (list (str * str))) : list record :=
  match ids, documents, embeddings, metadatas with
  | i :: ids', d :: documents', e :: embeddings', m :: metadatas' =>
      mkRecord i d e m :: zip_records ids' documents' embeddings' metadatas'
  | _, _, _, _ => []
  end.

(** [ids or [str(uuid4()) for _ in documents]]: an empty list is falsy. *)
Definition ids_or_fresh (ids : option (list str)) (documents : list str) (self : VectorStore)
  : list str * VectorStore :=
  match ids with
  | Some (i :: ids') => (i :: ids', self)
  | _ => fresh_ids (length documents) self
  end.

Definition add_documents (self : VectorStore) (collection_name : VectorStoreCollections)
  (documents : list str) (embeddings : list (list float))
  (metadatas : option (list (list (str * str)))) (ids : option (list str))
  : result unit * VectorStore :=
  if negb (length documents =? length embeddings)%nat
  then (Raise (ValueError "Mismatch: documents and embeddings count."), self)
  else
    let (ids, self1) := ids_or_fresh ids documents self in
    if negb (length ids =? length documents)%nat
    then (Raise (ValueError "Mismatch: documents and IDs count."), self1)
    else
      let (enriched_metadatas, self2) := enrich_all metadatas documents 0 self1 in
      let (collection, self3) := _load_or_create_collection self2 collection_name in
      match collection_add collection (zip_records ids documents embeddings enriched_metadatas) with
      | Ok collection' =>
          (Ok tt,
           mkStore (<[collection_value collection_name := collection']> (client self3))
             (_collections self3) (uuid_source self3) (uuid_count self3))
      | Raise e => (Raise e, self3)
      end.

(** [size]: [collection.count()] *)
Definition size (self : VectorStore) (collection_name : VectorStoreCollections)
  : nat * VectorStore :=
  let (collection, self1) := _load_or_create_collection self collection_name in
  (length collection, self1).

(** ** upsert_embeddings *)

(** The embedding function of the store, a SentenceTransformer, on one
    batch of documents. *)
Variable embedding_function : list str -> result (list (list float)).

(** chromadb's [Collection.upsert] on the four lists it is handed (ids,
    documents, embeddings, metadatas): the records of the collection after
    the call, or the exception chromadb raises. *)
Variable collection_upsert :
  list record -> list str -> list str -> list (list float) -> list (list (str * str))
  -> result (list record).

Definition upsert_embeddings (self : VectorStore) (collection_name : VectorStoreCollections)
  (documents : list str) (metadatas : option (list (list (str * str)))) (ids : option (list str))
  : result unit * VectorStore :=
  match documents with
  | [] => (Ok tt, self)
  | _ :: _ =>
      let (ids, self1) := ids_or_fresh ids documents self in
      if negb (length ids =? length documents)%nat
      then (Raise (ValueError "Mismatch: documents and IDs count."), self1)
      else
        let (enriched_metadatas, self2) := enrich_all metadatas documents 0 self1 in
        match embedding_function documents with
        | Raise e => (Raise e, self2)
        | Ok embeddings =>
            let (collection, self3) := _load_or_create_collection self2 collection_name in
            match collection_upsert collection ids documents embeddings enriched_metadatas with
            | Ok collection' =>
                (Ok tt,
                 mkStore (<[collection_value collection_name := collection']> (client self3))
                   (_collections self3) (uuid_source self3) (uuid_count self3))
            | Raise e => (Raise e, self3)
            end
        end
  end.

(** ** query_similar *)

(** What chromadb's [Collection.query] returns with
    [include=["documents", "metadatas", "distances"]]: four columns, each a
    list with one list per query. *)
Record query_result : Type := mkQueryResult {
  q_ids : list (list str);
  q_documents : list (list str);
  q_metadatas : list (list (list (str * str)));
  q_distances : list (list float)
}.

Variable collection_query : list record -> list str -> Z -> result query_result.

(** One entry of ["matches"], and one entry of the returned list. *)
Record similar : Type := mkSimilar {
  similar_id : str;
  similar_document : str;
  similar_metadata : list (str * str);
  similar_distance : float
}.

Record answer : Type := mkAnswer {
  answer_query : str;
  answer_matches : list similar
}.

(** [l[i]] on a list, for an index that is not negative. *)
Definition list_getitem {A : Type} (l : list A) (i : nat) : result A :=
  match nth_error l i with
  | Some x => Ok x
  | None => Raise IndexError
  end.

(** The inner loop of [query_similar], over
    [range(len(results["documents"][i]))]. *)
Definition matches_at (results : query_result) (i : nat) : result (list similar) :=
  documents_i <- list_getitem (q_documents results) i ;;
  mapM (fun j =>
          ids_i <- list_getitem (q_ids results) i ;;
          id <- list_getitem ids_i j ;;
          documents_i <- list_getitem (q_documents results) i ;;
          document <- list_getitem documents_i j ;;
          metadatas_i <- list_getitem (q_metadatas results) i ;;
          metadata <- list_getitem metadatas_i j ;;
          distances_i <- list_getitem (q_distances results) i ;;
          distance <- list_getitem distances_i j ;;
          Ok (mkSimilar id document metadata distance))
       (seq 0 (length documents_i)).

(** The outer loop, over [enumerate(query_texts)] from index [i]. *)
Fixpoint query_loop (results : query_result) (query_texts : list str) (i : nat)
  : result (list answer) :=
  match query_texts with
  | [] => Ok []
  | query :: rest =>
      matches <- matches_at results i ;;
      output <- query_loop results rest (S i) ;;
      Ok (mkAnswer query matches :: output)
  end.

Definition query_similar (self : VectorStore) (collection_name : VectorStoreCollections)
  (query_texts : list str) (n_results : Z) : result (list answer) * VectorStore :=
  let (collection, self1) := _load_or_create_collection self collection_name in
  match collection_query collection query_texts n_results with
  | Raise e => (Raise e, self1)
  | Ok results => (query_loop results query_texts 0, self1)
  end.

End Store.
Arguments record float : clear implicits.
Arguments VectorStore float : clear implicits.
Arguments query_result float : clear implicits.
Arguments similar float : clear implicits.
Arguments answer float : clear implicits.

End VectorStore.

(* ===================================================================== *)
(** * backend/utils/schema_parser.py                                      *)
(* ===================================================================== *)

Module SchemaParser.
Import Py.

(** The dict [field_info] of one property. *)
Definition field_info (prop_name : str) (prop_schema : json) : result json :=
  p_type <- get_default prop_schema "type" (JStr "object") ;;
  p_format <- get prop_schema "format" ;;
  p_enum <- get_default prop_schema "enum" (JList []) ;;
  p_description <- get_default prop_schema "description" (JStr "") ;;
  p_type' <- get prop_schema "type" ;;
  is_enum <- contains "enum" prop_schema ;;
  p_example <- get prop_schema "example" ;;
  p_default <- get prop_schema "default" ;;
  Ok (JDict [ ("name" : str, JStr prop_name); ("type" : str, p_type);
              ("format" : str, p_format); ("enum" : str, p_enum);
              ("description" : str, p_description);
              ("is_boolean" : str, JBool (is_str "boolean" p_type'));
              ("is_enum" : str, JBool is_enum);
              ("example" : str, p_example); ("default" : str, p_default) ]).

(** The loop of [parse_schema_properties] over [properties.items()]. *)
Fixpoint parse_loop (required_fields : list str) (properties : list (str * json))
  (required_props optional_props : list json) : result (list json * list json) :=
  match properties with
  | [] => Ok (required_props, optional_props)
  | (prop_name, prop_schema) :: rest =>
      info <- field_info prop_name prop_schema ;;
      if existsb (str_eqb prop_name) required_fields
      then parse_loop required_fields rest (required_props ++ [info]) optional_props
      else parse_loop required_fields rest required_props (optional_props ++ [info])
  end.

(** [required_fields] is the declared List[str], or None. *)
Definition parse_schema_properties (schema : json) (required_fields : option (list str))
  : result (list json * list json) :=
  let required_fields := match required_fields with
                         | Some (f :: fs) => f :: fs
                         | _ => []
                         end in
  properties <- get_default schema "properties" (JDict []) ;;
  properties <- items properties ;;
  parse_loop required_fields properties [] [].

(** The dict [parsed] of [flatten_schema_to_summary]. *)
Record summary : Type := mkSummary {
  required_fields : list str;
  optional_fields : list str;
  types : list (str * json);
  booleans : list str;
  enums : list (str * json)
}.

(** The loop of [flatten_schema_to_summary] over [properties.items()]. *)
Fixpoint flatten_loop (required : json) (properties : list (str * json)) (parsed : summary)
  : result summary :=
  match properties with
  | [] => Ok parsed
  | (field_name, field_schema) :: rest =>
      f_type <- get_default field_schema "type" (JStr "object") ;;
      let types' := dict_set field_name f_type (types parsed) in
      is_required <- contains field_name required ;;
      let required' := if is_required : bool
                       then required_fields parsed ++ [field_name]
                       else required_fields parsed in
      let optional' := if is_required : bool
                       then optional_fields parsed
                       else optional_fields parsed ++ [field_name] in
      let booleans' := if is_str "boolean" f_type
                       then booleans parsed ++ [field_name]
                       else booleans parsed in
      has_enum <- contains "enum" field_schema ;;
      enums' <- (if has_enum : bool
                 then (e <- getitem field_schema "enum" ;;
                       Ok (dict_set field_name e (enums parsed)))
                 else Ok (enums parsed)) ;;
      flatten_loop required rest (mkSummary required' optional' types' booleans' enums')
  end.

(** The dict that is returned, as a value. *)
Definition summary_dict (parsed : summary) : json :=
  JDict [ ("required_fields" : str, JList (map JStr (required_fields parsed)));
          ("optional_fields" : str, JList (map JStr (optional_fields parsed)));
          ("types" : str, JDict (types parsed));
          ("booleans" : str, JList (map JStr (booleans parsed)));
          ("enums" : str, JDict (enums parsed)) ].

Definition flatten_schema_to_summary (schema : json) : result json :=
  required <- get_default schema "required" (JList []) ;;
  properties <- get_default schema "properties" (JDict []) ;;
  properties <- items properties ;;
  parsed <- flatten_loop required properties (mkSummary [] [] [] [] []) ;;
  Ok (summary_dict parsed).

End SchemaParser.

(* ===================================================================== *)
(** * backend/prompt_engine/prompt_builder.py                             *)
(* ===================================================================== *)

Module PromptBuilder.
Import Py.

(** [v[:80].strip().replace("\n", " ") + "..."] *)
Definition preview (v : str) : str :=
  replace nl " " (strip (firstn 80 v)) ++ "...".

(** [available_keys]: [_raw_templates] is the declared Dict[str, str], in
    the order of the YAML file. *)
Definition available_keys (_raw_templates : list (str * str)) : list (str * str) :=
  map (fun kv => (fst kv, preview (snd kv))) _raw_templates.

End PromptBuilder.

(* ===================================================================== *)
(** * Reference definitions the properties are stated against            *)
(* ===================================================================== *)

Module Spec.
Import Py.

(** The object a path of segments designates in a document tree: each
    segment must be a key of the object reached so far. *)
Fixpoint lookup_path (node : json) (segments : list str) : option json :=
  match segments with
  | [] => Some node
  | segment :: rest =>
      match node with
      | JDict d =>
          match assoc segment d with
          | Some child => lookup_path child rest
          | None => None
          end
      | _ => None
      end
  end.

(** How a walk over objects ends: at a value, at a segment that is absent
    or null in the object reached, or at a node that is no object. *)
Inductive walk_end : Type :=
| Found (v : json)
| Missing
| NotObject.

Fixpoint walk (node : json) (segments : list str) : walk_end :=
  match segments with
  | [] => Found node
  | segment :: rest =>
      match node with
      | JDict d =>
          match assoc segment d with
          | None => Missing
          | Some JNull => Missing
          | Some child => walk child rest
          end
      | _ => NotObject
      end
  end.

(** The segments of a ref, as [_resolve_ref] cuts it. *)
Definition segments_of (ref : str) : list str := split "/" (lstrip "#/" ref).

Section Extraction.
Context {float : Type}.

(** Extracting the chunks of a document: a chunker is built for it and
    [extract_chunks] is called on it. *)
Definition extract (doc : json) (source_file : str) : result (list (Chunk float)) :=
  self <- SwaggerChunker.init doc source_file ;;
  fst (SwaggerChunker.extract_chunks self).

(** The id of a chunk is the first 16 hex characters of the SHA-256
    digest of its text. *)
Definition id_of_text (chunk : Chunk float) : Prop :=
  exists text,
    chunk_text chunk = Some text
    /\ chunk_id chunk = Some (firstn 16 (SHA256.hexdigest (encode_utf8 text))).

(** The operation id of an operation: its [operationId], or else the
    method and the path with every '/' replaced by '_'. *)
Definition operation_id_of (method path : str) (operation : json) : json :=
  match operation with
  | JDict d =>
      match assoc "operationId" d with
      | Some explicit => explicit
      | None => JStr (method ++ "_" ++ replace "/" "_" path)
      end
  | _ => JStr (method ++ "_" ++ replace "/" "_" path)
  end.

(** A chunk is the chunk of an endpoint: its type is [ChunkType.SWAGGER]
    and its metadata carry the method, the path and the operation id. *)
Definition describes (endpoint : str * str * json) (chunk : Chunk float) : Prop :=
  let '(method, path, operation) := endpoint in
  chunk_type chunk = Some (Constants.value Constants.SWAGGER)
  /\ exists metadata,
       chunk_metadata chunk = Some metadata
       /\ assoc "method" metadata = Some (JStr method)
       /\ assoc "path" metadata = Some (JStr path)
       /\ assoc "operation_id" metadata = Some (operation_id_of method path operation).


(** Two chunkers over the same document: they differ at most in the
    chunks they hold. *)
Definition same_document (a b : SwaggerChunker.SwaggerChunker float) : Prop :=
  SwaggerChunker.swagger a = SwaggerChunker.swagger b
  /\ SwaggerChunker.source_file a = SwaggerChunker.source_file b
  /\ SwaggerChunker.global_security a = SwaggerChunker.global_security b.

End Extraction.

Section Embedding.
Context {float : Type} `{!EmbeddingCache.IndexCodec float}.

(** A chunk without its embedding. *)
Definition forget (chunk : Chunk float) : Chunk float :=
  mkChunk (chunk_id chunk) (chunk_type chunk) (chunk_text chunk) (chunk_metadata chunk) None.

(** The vector the cache holds for a chunk and that the engine accepts
    (an empty vector is not accepted). *)
Definition cached_vector (c : EmbeddingCache.EmbeddingCache float) (chunk : Chunk float)
  : option (list float) :=
  match chunk_text chunk, chunk_type chunk with
  | Some text, Some ty =>
      match EmbeddingCache.get c text (EmbeddingEngine.type_metadata ty) with
      | Some (x :: v) => Some (x :: v)
      | _ => None
      end
  | _, _ => None
  end.

Definition is_hit (c : EmbeddingCache.EmbeddingCache float) (chunk : Chunk float) : bool :=
  match cached_vector c chunk with Some _ => true | None => false end.

Definition is_miss (c : EmbeddingCache.EmbeddingCache float) (chunk : Chunk float) : bool :=
  negb (is_hit c chunk).

(** The cache hits of a list, each with its cached vector. *)
Definition hits_of (c : EmbeddingCache.EmbeddingCache float) (chunks : list (Chunk float))
  : list (Chunk float) :=
  flat_map (fun chunk => match cached_vector c chunk with
                         | Some v => [EmbeddingEngine.set_embedding chunk v]
                         | None => []
                         end) chunks.

(** Chunks and vectors paired by position. *)
Definition attach_all (chunks : list (Chunk float)) (vectors : list (list float))
  : list (Chunk float) :=
  map (fun cv => EmbeddingEngine.set_embedding (fst cv) (snd cv)) (combine chunks vectors).


(** The index can be saved: the lock is free and the file can be opened. *)
Definition writable (c : EmbeddingCache.EmbeddingCache float) : Prop :=
  EmbeddingCache.lock_free c = true
  /\ forall content, EmbeddingCache.index_file c <> EmbeddingCache.File false content.

(** The embedding service answers every batch with one vector per text. *)
Definition answers_every_text (model : list str -> result (list (list float))) : Prop :=
  forall texts, exists vectors, model texts = Ok vectors /\ length vectors = length texts.

End Embedding.

End Spec.

(* ===================================================================== *)
(** * Sample documents and states                                         *)
(* ===================================================================== *)

Module Examples.
Import Py Constants.

Definition user_schema : json :=
  JDict [ ("type" : str, JStr "object");
          ("properties" : str, JDict [ ("id" : str, JDict [ ("type" : str, JStr "string") ]) ]) ].

(** The operation GET /users/{id}: a required path parameter [id] and a
    200 response that refers to the User schema. *)
Definition users_operation : json :=
  JDict
    [ ("parameters" : str,
       JList
         [ JDict [ ("name" : str, JStr "id"); ("in" : str, JStr "path");
                   ("required" : str, JBool true);
                   ("schema" : str, JDict [ ("type" : str, JStr "string") ]) ] ]);
      ("responses" : str,
       JDict
         [ ("200" : str,
            JDict
              [ ("description" : str, JStr "ok");
                ("content" : str,
                 JDict
                   [ ("application/json" : str,
                      JDict
                        [ ("schema" : str,
                           JDict [ ("$ref" : str, JStr "#/components/schemas/User") ]) ]) ]) ]) ]) ].

(** A document with that one operation. *)
Definition users_doc : json :=
  JDict
    [ ("paths" : str,
       JDict [ ("/users/{id}" : str, JDict [ ("get" : str, users_operation) ]) ]);
      ("components" : str, JDict [ ("schemas" : str, JDict [ ("User" : str, user_schema) ]) ]) ].

Definition users_endpoint : str * str * json :=
  ("get" : str, "/users/{id}" : str, users_operation).

(** The chunk of that operation, as Python prints its text. *)
Definition users_text : str :=
  "GET /users/{id}" ++ [nl; nl; nl; nl]
  ++ "Parameters:" ++ [nl]
  ++ "[{'name': 'id', 'in': 'path', 'required': True, 'type': 'string', 'description': ''}]"
  ++ [nl; nl] ++ "Responses:" ++ [nl]
  ++ "{'200': {'description': 'ok', 'schema': {'type': 'object', 'properties': {'id': {'type': 'string'}}}}}"
  ++ [nl; nl] ++ "Security: []".

Definition users_chunk : Chunk Z :=
  mkChunk (Some ("1bd1c6b8f3401f99" : str)) (Some ("swagger" : str)) (Some users_text)
    (Some [ ("chunk_type" : str, JStr "swagger"); ("chunk_origin" : str, JStr "swagger");
            ("source_file" : str, JStr "api.yaml"); ("method" : str, JStr "get");
            ("path" : str, JStr "/users/{id}");
            ("operation_id" : str, JStr "get__users_{id}") ])
    None.

(** The chunker [SwaggerChunker(users_doc, "specs/api.yaml")] builds. *)
Definition users_chunker : SwaggerChunker.SwaggerChunker Z :=
  SwaggerChunker.mkChunker users_doc "api.yaml"
    (JDict [ ("User" : str, user_schema) ]) (JDict []) (JList []) [].

(** A document whose key [a] holds null, and one whose key [a] holds a str. *)
Definition null_doc : json := JDict [ ("a" : str, JNull) ].
Definition text_doc : json := JDict [ ("a" : str, JStr "x") ].

Definition chunker_of (doc : json) : SwaggerChunker.SwaggerChunker Z :=
  SwaggerChunker.mkChunker doc "doc.json" (JDict []) (JDict []) (JList []) [].

(** An index codec that takes no text for JSON and writes nothing. *)
#[global] Instance blank_codec : EmbeddingCache.IndexCodec Z :=
  {| EmbeddingCache.load_index := fun _ => Raise JSONDecodeError;
     EmbeddingCache.dump_index := fun _ => [] |}.

Definition empty_cache : EmbeddingCache.EmbeddingCache Z :=
  EmbeddingCache.mkCache ∅ EmbeddingCache.Absent true.

(** An embedding service that answers every text with the vector [1]. *)
Definition unit_model (texts : list str) : result (list (list Z)) :=
  Ok (map (fun _ => [1%Z]) texts).

Definition chunk_a : Chunk Z :=
  mkChunk (Some ("a" : str)) (Some ("swagger" : str)) (Some ("first text" : str)) None None.
Definition chunk_b : Chunk Z :=
  mkChunk (Some ("b" : str)) (Some ("swagger" : str)) (Some ("second text" : str)) None None.

(** A cache that already holds the vector [7] for the text of [chunk_b]
    under the generic text type, and an engine over it. *)
Definition warm_cache : EmbeddingCache.EmbeddingCache Z :=
  snd (EmbeddingCache.add empty_cache "second text" [7%Z]
         (EmbeddingEngine.type_metadata (value TEXT))).

Definition warm_engine : EmbeddingEngine.EmbeddingEngine Z :=
  EmbeddingEngine.mkEngine warm_cache unit_model.

Definition cold_engine : EmbeddingEngine.EmbeddingEngine Z :=
  EmbeddingEngine.mkEngine empty_cache unit_model.

(** A database whose [add] appends. *)
Definition appending_add (old new : list (VectorStore.record Z))
  : result (list (VectorStore.record Z)) := Ok (old ++ new).

Definition empty_store : VectorStore.VectorStore Z :=
  VectorStore.mkStore ∅ ∅ (fun n => "uuid-" ++ decimal (Z.of_nat n)) 0.


(** An embedding service that is down. *)
Definition down_model (texts : list str) : result (list (list Z)) :=
  Raise (ValueError "service unavailable").

Definition down_engine : EmbeddingEngine.EmbeddingEngine Z :=
  EmbeddingEngine.mkEngine empty_cache down_model.

(** A cache whose lock is held by another process. *)
Definition locked_cache : EmbeddingCache.EmbeddingCache Z :=
  EmbeddingCache.mkCache ∅ EmbeddingCache.Absent false.

(** An index codec whose [dump_index] and [load_index] are inverse: the
    index is written as the binary digits, '0' and '1', of its code. *)
Fixpoint bits_of (p : positive) : list N :=
  match p with
  | xH => []
  | xO q => 48%N :: bits_of q
  | xI q => 49%N :: bits_of q
  end.

Fixpoint of_bits (content : list N) : option positive :=
  match content with
  | [] => Some xH
  | b :: rest =>
      match of_bits rest with
      | Some q => if (b =? 48)%N then Some (xO q)
                  else if (b =? 49)%N then Some (xI q) else None
      | None => None
      end
  end.

Definition bits_codec : EmbeddingCache.IndexCodec Z :=
  {| EmbeddingCache.load_index := fun content =>
       match of_bits content with
       | Some p => match decode p with
                   | Some index => Ok index
                   | None => Raise JSONDecodeError
                   end
       | None => Raise JSONDecodeError
       end;
     EmbeddingCache.dump_index := fun index => bits_of (encode index) |}.

Definition bits_cache : @EmbeddingCache.EmbeddingCache Z :=
  EmbeddingCache.mkCache ∅ EmbeddingCache.Absent true.

(** A document with two operations on /items: GET is sound, and the
    parameter of POST refers to a component that does not exist. *)
Definition items_get : json := JDict [ ("operationId" : str, JStr "listItems") ].

Definition items_post : json :=
  JDict [ ("parameters" : str,
           JList [ JDict [ ("$ref" : str, JStr "#/components/parameters/Missing") ] ]) ].

Definition items_doc : json :=
  JDict [ ("paths" : str,
           JDict [ ("/items" : str,
                    JDict [ ("get" : str, items_get); ("post" : str, items_post) ]) ]) ].

(** An embedding function for the store, and a database whose [upsert]
    appends and whose [query] returns no match for any query. *)
Definition unit_embedding (documents : list str) : result (list (list Z)) :=
  Ok (map (fun _ => [1%Z]) documents).

Definition appending_upsert (old : list (VectorStore.record Z)) (ids documents : list str)
  (embeddings : list (list Z)) (metadatas : list (list (str * str)))
  : result (list (VectorStore.record Z)) :=
  Ok (old ++ VectorStore.zip_records ids documents embeddings metadatas).

Definition first_record_query (records : list (VectorStore.record Z)) (query_texts : list str)
  (n_results : Z) : result (VectorStore.query_result Z) :=
  Ok (VectorStore.mkQueryResult
        (map (fun _ => map VectorStore.rec_id (firstn 1 records)) query_texts)
        (map (fun _ => map VectorStore.rec_document (firstn 1 records)) query_texts)
        (map (fun _ => map VectorStore.rec_metadata (firstn 1 records)) query_texts)
        (map (fun _ => map (fun _ => 0%Z) (firstn 1 records)) query_texts)).

(** A store that holds one record in the collection of the Swagger
    embeddings. *)
Definition one_record_store : VectorStore.VectorStore Z :=
  VectorStore.mkStore
    {[ collection_value SWAGGER_EMBEDDINGS :=
         [ VectorStore.mkRecord ("r1" : str) ("GET /users" : str) [1%Z]
             [ (METADATA_FIELD_TYPE, "swagger" : str) ] ] ]}
    ∅ (fun n => "uuid-" ++ decimal (Z.of_nat n)) 0.

(** A schema with a required id, an optional flag and an optional colour
    out of an enum. *)
Definition pet_schema : json :=
  JDict [ ("required" : str, JList [ JStr "id" ]);
          ("properties" : str,
           JDict [ ("id" : str, JDict [ ("type" : str, JStr "integer") ]);
                   ("vaccinated" : str, JDict [ ("type" : str, JStr "boolean") ]);
                   ("colour" : str,
                    JDict [ ("type" : str, JStr "string");
                            ("enum" : str, JList [ JStr "black"; JStr "white" ]) ]) ]) ].

End Examples.

(* ===================================================================== *)
(** * Further reference definitions                                       *)
(* ===================================================================== *)

Module Props.
Import Py.

(** One of the characters 0-9 and a-f. *)
Definition is_hex_digit (c : ascii) : bool := in_range 48 57 c || in_range 97 102 c.

(** A text made of white space only. *)
Definition blank (s : str) : bool := forallb is_space s.


(** The defaults [add_documents] puts under the caller's metadata. *)
Definition default_metadata (fresh : str) : list (str * str) :=
  [ (Constants.METADATA_FIELD_TYPE, "text" : str);
    (Constants.METADATA_FIELD_ORIGIN, "unknown" : str);
    (Constants.METADATA_FIELD_FILENAME, "unknown" : str);
    (Constants.METADATA_FIELD_HASH, fresh) ].

(** The answer of the database to a query has one row per query in each
    of its four columns, and a row has one entry per match. *)
Definition aligned {float : Type} (results : VectorStore.query_result float) (queries : nat)
  : Prop :=
  length (VectorStore.q_documents results) = queries
  /\ Forall2 (fun documents ids => length ids = length documents)
       (VectorStore.q_documents results) (VectorStore.q_ids results)
  /\ Forall2 (fun documents metadatas => length metadatas = length documents)
       (VectorStore.q_documents results) (VectorStore.q_metadatas results)
  /\ Forall2 (fun documents distances => length distances = length documents)
       (VectorStore.q_documents results) (VectorStore.q_distances results).

(** The records of a collection; a collection that does not exist has none. *)
Definition records_of {float : Type} (self : VectorStore.VectorStore float) (name : str)
  : list (VectorStore.record float) :=
  default [] (VectorStore.client self !! name).

(** Whether a name is listed in [required_fields]. *)
Definition listed (required_fields : list str) (property : str * json) : bool :=
  existsb (str_eqb (fst property)) required_fields.

End Props.

(* ===================================================================== *)
(** * Properties of the reference resolver                                *)
(* ===================================================================== *)

Section ResolverProperties.
Import Py SwaggerChunker.
Context {float : Type}.
Implicit Types (self : SwaggerChunker float) (ref : str) (node v : json).

Lemma resolve_walk_found ref segments : forall node v,
  Spec.walk node segments = Spec.Found v ->
  resolve_walk ref node segments = Ok v.
Proof.
  induction segments as [|segment rest IH]; intros node v Hwalk; simpl in *.
  - congruence.
  - destruct node; try discriminate.
    simpl. destruct (assoc segment d) as [child|]; [|discriminate].
    destruct child; try discriminate; simpl; apply IH; exact Hwalk.
Qed.

Lemma resolve_walk_missing ref segments : forall node,
  Spec.walk node segments = Spec.Missing ->
  resolve_walk ref node segments = Raise (KeyError ("Unable to resolve $ref: " ++ ref)).
Proof.
  induction segments as [|segment rest IH]; intros node Hwalk; simpl in *.
  - discriminate.
  - destruct node; try discriminate.
    simpl. destruct (assoc segment d) as [child|]; [|reflexivity].
    destruct child; try reflexivity; simpl; apply IH; exact Hwalk.
Qed.

Lemma resolve_walk_not_object ref segments : forall node,
  Spec.walk node segments = Spec.NotObject ->
  exists bad, resolve_walk ref node segments = Raise (no_attribute bad "get").
Proof.
  induction segments as [|segment rest IH]; intros node Hwalk; simpl in *.
  - discriminate.
  - destruct node; try (eexists; reflexivity).
    simpl. destruct (assoc segment d) as [child|]; [|discriminate].
    destruct child; try discriminate; simpl; apply IH; exact Hwalk.
Qed.

Lemma resolve_walk_ok_path ref segments : forall node v,
  resolve_walk ref node segments = Ok v ->
  Spec.lookup_path node segments = Some v.
Proof.
  induction segments as [|segment rest IH]; intros node v Hres; simpl in *.
  - congruence.
  - destruct node; try discriminate.
    simpl in Hres. destruct (assoc segment d) as [child|]; [|discriminate].
    destruct child; try discriminate; simpl in Hres; apply IH; exact Hres.
Qed.

(** C5 (as amended).  [_resolve_ref] walks the document from its root, one
    segment of the ref at a time.  When every segment is a key with a
    non-null value in the object reached, the result is exactly the value
    at the end of the path; when a segment is absent or null in the object
    reached, KeyError is raised with the message
    "Unable to resolve $ref: <ref>"; and a value is only ever returned when
    it is the one the whole path designates. *)
Theorem resolve_ref_walks_objects self ref :
  (forall v, Spec.walk (swagger self) (Spec.segments_of ref) = Spec.Found v ->
             _resolve_ref self ref = Ok v)
  /\ (Spec.walk (swagger self) (Spec.segments_of ref) = Spec.Missing ->
      _resolve_ref self ref = Raise (KeyError ("Unable to resolve $ref: " ++ ref)))
  /\ (forall v, _resolve_ref self ref = Ok v ->
                Spec.lookup_path (swagger self) (Spec.segments_of ref) = Some v).
Proof.
  unfold _resolve_ref, Spec.segments_of. repeat split.
  - intros v Hwalk. now apply resolve_walk_found.
  - intros Hwalk. now apply resolve_walk_missing.
  - intros v Hres. now apply (resolve_walk_ok_path ref).
Qed.

End ResolverProperties.

Section ResolverExamples.
Import Py SwaggerChunker Examples.

Example users_chunker_init : init users_doc "specs/api.yaml" = Ok users_chunker.
Proof. reflexivity. Qed.

Lemma resolve_ref_walks_objects_witness :
  _resolve_ref users_chunker "#/components/schemas/User" = Ok user_schema
  /\ _resolve_ref users_chunker "#/components/schemas/Order"
     = Raise (KeyError "Unable to resolve $ref: #/components/schemas/Order")
  /\ Spec.lookup_path users_doc (Spec.segments_of "#/components/schemas/User")
     = Some user_schema.
Proof.
  destruct (resolve_ref_walks_objects users_chunker "#/components/schemas/User")
    as [Hfound [_ Hpath]].
  destruct (resolve_ref_walks_objects users_chunker "#/components/schemas/Order")
    as [_ [Hmissing _]].
  split; [apply Hfound; reflexivity|].
  split; [apply Hmissing; reflexivity|].
  apply Hpath, Hfound. reflexivity.
Defined.

(** C5, counterexample.  In the document [{"a": null}] the segment [a] of
    the ref "#/a" exists and designates null, and [_resolve_ref] raises
    instead of returning what the path designates.  In the document
    [{"a": "x"}] the segment [b] of the ref "#/a/b" is missing, and the
    error raised is the AttributeError of looking [get] up on a str, whose
    message does not name the ref. *)
Lemma resolve_ref_null_segment :
  (Spec.lookup_path null_doc (Spec.segments_of "#/a") = Some JNull
   /\ _resolve_ref (chunker_of null_doc) "#/a"
      = Raise (KeyError "Unable to resolve $ref: #/a"))
  /\ (Spec.lookup_path text_doc (Spec.segments_of "#/a/b") = None
      /\ _resolve_ref (chunker_of text_doc) "#/a/b"
         = Raise (AttributeError ([sq] ++ "str" ++ [sq] ++ " object has no attribute "
                                  ++ [sq] ++ "get" ++ [sq]))).
Proof. repeat split. Qed.

End ResolverExamples.

(* ===================================================================== *)
(** * Properties of the vector store                                      *)
(* ===================================================================== *)

Section VectorStoreProperties.
Import Py Constants VectorStore.
Context {float : Type}.
Variable collection_add :
  list (record float) -> list (record float) -> result (list (record float)).
Implicit Types (self : VectorStore float) (name : VectorStoreCollections)
  (documents : list str) (embeddings : list (list float))
  (metadatas : option (list (list (str * str)))) (ids : option (list str)).

(** C4.  When [documents] and [embeddings] differ in length,
    [add_documents] raises the ValueError of the contract and returns the
    store as it was: the database ([client]), the cached handles
    ([_collections]) and the uuid source are those of before the call. *)
Theorem add_documents_length_mismatch self name documents embeddings metadatas ids :
  length documents <> length embeddings ->
  add_documents collection_add self name documents embeddings metadatas ids
  = (Raise (ValueError "Mismatch: documents and embeddings count."), self).
Proof.
  intros Hlen. unfold add_documents.
  destruct (Nat.eqb_spec (length documents) (length embeddings)) as [Heq|Hne].
  - contradiction.
  - reflexivity.
Qed.

(** The store after [n] calls of [uuid4]. *)
Lemma fresh_ids_spec n : forall self,
  fresh_ids n self
  = (map (uuid_source self) (seq (uuid_count self) n),
     mkStore (client self) (_collections self) (uuid_source self) (uuid_count self + n)).
Proof.
  induction n as [|n IH]; intros self; simpl.
  - rewrite Nat.add_0_r. destruct self; reflexivity.
  - rewrite IH. simpl. do 2 f_equal. lia.
Qed.


End VectorStoreProperties.

Section VectorStoreExamples.
Import Py Constants VectorStore Examples.

Lemma add_documents_length_mismatch_witness :
  add_documents appending_add empty_store SWAGGER_EMBEDDINGS
    ["one" : str; "two" : str; "three" : str] [[1%Z]; [2%Z]] None None
  = (Raise (ValueError "Mismatch: documents and embeddings count."), empty_store).
Proof.
  apply (add_documents_length_mismatch appending_add empty_store SWAGGER_EMBEDDINGS
           ["one" : str; "two" : str; "three" : str] [[1%Z]; [2%Z]] None None).
  simpl. lia.
Defined.


(** With an empty [ids], two documents are stored under the two ids drawn
    from [uuid4]. *)
Example add_documents_empty_ids :
  (client (snd (add_documents appending_add empty_store SWAGGER_EMBEDDINGS
                  ["one" : str; "two" : str] [[1%Z]; [2%Z]] None (Some []))))
    !! collection_value SWAGGER_EMBEDDINGS
  = Some [ mkRecord ("uuid-0" : str) ("one" : str) [1%Z]
             [ (METADATA_FIELD_TYPE, "text" : str); (METADATA_FIELD_ORIGIN, "unknown" : str);
               (METADATA_FIELD_FILENAME, "unknown" : str); (METADATA_FIELD_HASH, "uuid-2" : str) ];
           mkRecord ("uuid-1" : str) ("two" : str) [2%Z]
             [ (METADATA_FIELD_TYPE, "text" : str); (METADATA_FIELD_ORIGIN, "unknown" : str);
               (METADATA_FIELD_FILENAME, "unknown" : str); (METADATA_FIELD_HASH, "uuid-3" : str) ] ].
Proof. vm_compute. reflexivity. Qed.

End VectorStoreExamples.

(* ===================================================================== *)
(** * Properties of the embedding cache                                   *)
(* ===================================================================== *)

Section CacheProperties.
Import Py EmbeddingCache.
Context {float : Type} `{!IndexCodec float}.
Implicit Types (self : EmbeddingCache float) (text : str)
  (metadata : option (list (str * json))) (embedding : list float).

(** [_save_index] leaves the entries in memory as they are, whether the
    file is written or the lock times out. *)
Lemma save_index_cache self : _cache (snd (_save_index self)) = _cache self.
Proof.
  unfold _save_index. destruct (lock_free self); simpl; [|reflexivity].
  destruct (index_file self) as [|[|] content]; reflexivity.
Qed.

Lemma add_cache self text embedding metadata :
  _cache (snd (add self text embedding metadata))
  = <[_compute_hash text metadata := embedding]> (_cache self).
Proof. unfold add. now rewrite save_index_cache. Qed.

(** C7.  After [add] (the cache's put), [get] with the same text and
    metadata returns exactly the stored vector, and a second [add] with the
    same text, metadata and vector leaves [size()] as it is. *)
Theorem cache_put_get_idempotent self text metadata embedding :
  let stored := snd (add self text embedding metadata) in
  get stored text metadata = Some embedding
  /\ size (snd (add stored text embedding metadata)) = size stored.
Proof.
  intros stored. subst stored. unfold get, size. split.
  - rewrite add_cache. apply lookup_insert_eq.
  - rewrite !add_cache. now rewrite insert_insert_eq.
Qed.

(** An index file that [json.load] rejects with JSONDecodeError is
    recovered from: the cache starts empty. *)
Lemma init_malformed_json content lock :
  utf8_valid content = true ->
  load_index content = Raise JSONDecodeError ->
  exists self, init (File true content) lock = Ok self /\ size self = 0.
Proof.
  intros Hutf Hjson. unfold init, _load_index, read_index.
  destruct lock; simpl.
  - rewrite Hutf, Hjson. simpl. eexists. split; [reflexivity|].
    unfold size. simpl. apply map_size_empty.
  - eexists. split; [reflexivity|]. unfold size. simpl. apply map_size_empty.
Qed.

(** C8, the failing input.  An index file whose one byte is 0xFF is no
    UTF-8 text: reading it raises UnicodeDecodeError, which the handler of
    [_load_index] does not catch, so constructing the cache raises. *)
Theorem init_undecodable_index_raises :
  init (File true [255%N]) true = Raise UnicodeDecodeError.
Proof.
  unfold init, _load_index, read_index. simpl. reflexivity.
Qed.

(** An index file that cannot be opened: OSError reaches the caller too. *)
Lemma init_inaccessible_index_raises content :
  init (File false content) true = Raise OSError.
Proof. reflexivity. Qed.

(** Only JSONDecodeError and the Timeout of the lock are caught: any other
    exception of [json.load] (RecursionError, ValueError) reaches the
    caller of the constructor. *)
Lemma init_unparsed_index_raises content e :
  utf8_valid content = true ->
  load_index content = Raise e ->
  e <> JSONDecodeError -> e <> Timeout ->
  init (File true content) true = Raise e.
Proof.
  intros Hutf Hload Hjson Hlock. unfold init, _load_index, read_index.
  cbn [negb]. rewrite Hutf, Hload. cbn [negb].
  destruct e; try reflexivity; contradiction.
Qed.

End CacheProperties.

(* ===================================================================== *)
(** * Properties of the embedding engine                                  *)
(* ===================================================================== *)

Section EngineProperties.
Import Py Constants EmbeddingEngine.
Context {float : Type} `{!EmbeddingCache.IndexCodec float}.
Implicit Types (self : EmbeddingEngine float) (c : EmbeddingCache.EmbeddingCache float)
  (chunk : Chunk float) (chunks validated enriched to_embed : list (Chunk float))
  (embeddings : list (list float)).

Lemma has_required_keys_fields chunk :
  has_required_keys chunk = true ->
  exists i ty text,
    chunk_id chunk = Some i /\ chunk_type chunk = Some ty /\ chunk_text chunk = Some text.
Proof.
  unfold has_required_keys.
  destruct (chunk_id chunk) as [i|], (chunk_type chunk) as [ty|], (chunk_text chunk) as [text|];
    try discriminate.
  intros _. now exists i, ty, text.
Qed.

Lemma validate_required chunks : Forall (fun chunk => has_required_keys chunk = true) (validate chunks).
Proof.
  induction chunks as [|chunk rest IH]; simpl; [constructor|].
  destruct (has_required_keys chunk) eqn:Hreq; simpl; [|exact IH].
  destruct (chunk_type chunk) as [ty|] eqn:Hty; [|exact IH].
  constructor; [|exact IH].
  destruct (known_type ty); [exact Hreq|].
  destruct (has_required_keys_fields _ Hreq) as (i & ty' & text & Hi & _ & Htext).
  unfold has_required_keys, set_type. simpl. now rewrite Hi, Htext.
Qed.

(** The second loop is a stable partition of the validated chunks. *)
Lemma split_cached_spec c validated : forall enriched to_embed,
  Forall (fun chunk => has_required_keys chunk = true) validated ->
  split_cached c validated enriched to_embed
  = Ok (enriched ++ Spec.hits_of c validated,
        to_embed ++ List.filter (Spec.is_miss c) validated).
Proof.
  induction validated as [|chunk rest IH]; intros enriched to_embed Hreq; simpl.
  - now rewrite !app_nil_r.
  - inversion Hreq as [|? ? Hchunk Hrest]; subst.
    destruct (has_required_keys_fields _ Hchunk) as (i & ty & text & Hi & Hty & Htext).
    unfold Spec.is_miss, Spec.is_hit, Spec.cached_vector.
    rewrite Htext, Hty. simpl.
    destruct (EmbeddingCache.get c text (type_metadata ty)) as [[|x v]|]; simpl.
    + rewrite IH by assumption. now rewrite <- app_assoc.
    + rewrite IH by assumption. now rewrite <- app_assoc.
    + rewrite IH by assumption. now rewrite <- app_assoc.
Qed.

Lemma forget_set_embedding chunk (v : list float) :
  Spec.forget (set_embedding chunk v) = Spec.forget chunk.
Proof. reflexivity. Qed.

Lemma forget_hits c validated :
  map Spec.forget (Spec.hits_of c validated)
  = map Spec.forget (List.filter (Spec.is_hit c) validated).
Proof.
  induction validated as [|chunk rest IH]; simpl; [reflexivity|].
  unfold Spec.is_hit. destruct (Spec.cached_vector c chunk) as [v|]; simpl.
  - now rewrite IH.
  - exact IH.
Qed.

Lemma forget_attach_all to_embed : forall embeddings,
  length to_embed <= length embeddings ->
  map Spec.forget (Spec.attach_all to_embed embeddings) = map Spec.forget to_embed.
Proof.
  induction to_embed as [|chunk rest IH]; intros [|v vs] Hlen; simpl in *;
    try reflexivity; try lia.
  unfold Spec.attach_all in *. simpl. rewrite forget_set_embedding. f_equal.
  apply IH. lia.
Qed.

Lemma add_writable c text (v : list float) metadata :
  Spec.writable c ->
  exists c', EmbeddingCache.add c text v metadata = (Ok tt, c') /\ Spec.writable c'.
Proof.
  intros [Hlock Hfile]. unfold EmbeddingCache.add, EmbeddingCache._save_index. simpl.
  rewrite Hlock. simpl.
  destruct (EmbeddingCache.index_file c) as [|[|] content] eqn:Hidx.
  - eexists. split; [reflexivity|]. split; simpl; [reflexivity|discriminate].
  - eexists. split; [reflexivity|]. split; simpl; [reflexivity|discriminate].
  - exfalso. now apply (Hfile content).
Qed.

Lemma skipn_nth_error {A : Type} (l : list A) : forall i x,
  nth_error l i = Some x -> skipn i l = x :: skipn (S i) l.
Proof.
  induction l as [|y l IH]; intros [|i] x Hnth; simpl in *; try discriminate.
  - injection Hnth as ->. reflexivity.
  - now apply IH.
Qed.

(** The third loop attaches to each cache miss the vector at its position
    and saves it. *)
Lemma embed_new_spec embeddings to_embed : forall c i enriched,
  Spec.writable c ->
  Forall (fun chunk => has_required_keys chunk = true) to_embed ->
  i + length to_embed <= length embeddings ->
  exists c',
    embed_new c to_embed embeddings i enriched
    = (Ok (enriched ++ Spec.attach_all to_embed (skipn i embeddings)), c')
    /\ Spec.writable c'.
Proof.
  induction to_embed as [|chunk rest IH]; intros c i enriched Hw Hreq Hlen; simpl in *.
  - exists c. now rewrite app_nil_r.
  - inversion Hreq as [|? ? Hchunk Hrest]; subst.
    destruct (has_required_keys_fields _ Hchunk) as (ci & ty & text & Hi & Hty & Htext).
    destruct (nth_error embeddings i) as [vector|] eqn:Hnth.
    + rewrite Htext, Hty. simpl.
      destruct (add_writable c text vector (type_metadata ty) Hw) as (c1 & Hadd & Hw1).
      rewrite Hadd.
      destruct (IH c1 (S i) (enriched ++ [set_embedding chunk vector]) Hw1 Hrest) as (c2 & Hrun & Hw2);
        [lia|].
      exists c2. split; [|exact Hw2].
      rewrite Hrun, (skipn_nth_error _ _ _ Hnth). unfold Spec.attach_all. simpl.
      now rewrite <- app_assoc.
    + apply nth_error_None in Hnth. lia.
Qed.

Lemma mapM_text to_embed :
  Forall (fun chunk => has_required_keys chunk = true) to_embed ->
  exists texts,
    mapM (fun chunk => field "text" (chunk_text chunk)) to_embed = Ok texts
    /\ length texts = length to_embed.
Proof.
  induction 1 as [|chunk rest Hchunk Hrest IH].
  - now exists [].
  - destruct (has_required_keys_fields _ Hchunk) as (i & ty & text & Hi & Hty & Htext).
    destruct IH as (texts & Hmap & Hlen).
    cbn [mapM]. rewrite Htext. cbn [bind field]. rewrite Hmap. cbn [bind].
    exists (text :: texts). simpl. now rewrite Hlen.
Qed.

Lemma filter_required (p : Chunk float -> bool) validated :
  Forall (fun chunk => has_required_keys chunk = true) validated ->
  Forall (fun chunk => has_required_keys chunk = true) (List.filter p validated).
Proof.
  induction 1 as [|chunk rest Hchunk Hrest IH]; simpl; [constructor|].
  destruct (p chunk); [constructor|]; assumption.
Qed.

(** What [embed_texts] returns when the index can be saved and the
    service answers: the hits with their cached vectors, then the misses
    with the vectors of the service. *)
Lemma embed_texts_spec self chunks :
  Spec.writable (cache self) ->
  Spec.answers_every_text (model self) ->
  exists embeddings self',
    length embeddings = length (List.filter (Spec.is_miss (cache self)) (validate chunks))
    /\ embed_texts self chunks
       = (Ok (Spec.hits_of (cache self) (validate chunks)
              ++ Spec.attach_all (List.filter (Spec.is_miss (cache self)) (validate chunks))
                   embeddings),
          self').
Proof.
  intros Hw Hmodel. unfold embed_texts.
  pose proof (validate_required chunks) as Hreq.
  rewrite (split_cached_spec _ _ [] [] Hreq), !app_nil_l. cbv beta iota.
  set (misses := List.filter (Spec.is_miss (cache self)) (validate chunks)).
  assert (Hmiss : Forall (fun chunk => has_required_keys chunk = true) misses)
    by now apply filter_required.
  destruct misses as [|chunk rest] eqn:Hm.
  - exists [], self. split; [reflexivity|].
    unfold Spec.attach_all. cbn [combine map]. now rewrite app_nil_r.
  - destruct (mapM_text _ Hmiss) as (texts & Htexts & Hlen).
    rewrite Htexts. cbn [bind].
    destruct (Hmodel texts) as (vectors & Hvec & Hvlen).
    rewrite Hvec.
    destruct (embed_new_spec vectors (chunk :: rest) (cache self) 0
                (Spec.hits_of (cache self) (validate chunks)) Hw Hmiss)
      as (c' & Hrun & _); [cbn [length] in *; lia|].
    rewrite Hrun. cbn [skipn].
    exists vectors, (with_cache self c'). split; [|reflexivity].
    cbn [length] in *. lia.
Qed.

(** C3 (as amended).  When the index can be saved and the embedding
    service answers every batch, [embed_texts] returns, and what it returns
    is a stable partition of the validated chunks: the cache hits in their
    input order, followed by the cache misses in their input order. *)
Theorem embed_texts_stable_partition self chunks :
  Spec.writable (cache self) ->
  Spec.answers_every_text (model self) ->
  exists out self',
    embed_texts self chunks = (Ok out, self')
    /\ map Spec.forget out
       = map Spec.forget
           (List.filter (Spec.is_hit (cache self)) (validate chunks)
            ++ List.filter (Spec.is_miss (cache self)) (validate chunks)).
Proof.
  intros Hw Hmodel.
  destruct (embed_texts_spec self chunks Hw Hmodel) as (embeddings & self' & Hlen & Hrun).
  eexists _, self'. split; [exact Hrun|].
  rewrite !map_app, forget_hits, forget_attach_all; [reflexivity|lia].
Qed.

End EngineProperties.

Section UnknownTypes.
Import Py Constants EmbeddingEngine.
Context {float : Type} `{!EmbeddingCache.IndexCodec float}.
Implicit Types (self : EmbeddingEngine float) (c : EmbeddingCache.EmbeddingCache float)
  (chunk : Chunk float) (chunks validated to_embed : list (Chunk float)).









End UnknownTypes.

Section EngineExamples.
Import Py Constants EmbeddingEngine Examples.

Lemma unit_model_answers : Spec.answers_every_text unit_model.
Proof.
  intros texts. exists (map (fun _ => [1%Z]) texts). split; [reflexivity|].
  apply length_map.
Qed.

Lemma warm_cache_writable : Spec.writable warm_cache.
Proof. split; [reflexivity|]. intros content. discriminate. Qed.

Lemma empty_cache_writable : Spec.writable empty_cache.
Proof. split; [reflexivity|]. intros content. discriminate. Qed.

Lemma embed_texts_stable_partition_witness :
  exists out self',
    embed_texts warm_engine [chunk_a; chunk_b] = (Ok out, self')
    /\ map Spec.forget out
       = map Spec.forget
           (List.filter (Spec.is_hit (cache warm_engine)) (validate [chunk_a; chunk_b])
            ++ List.filter (Spec.is_miss (cache warm_engine)) (validate [chunk_a; chunk_b])).
Proof.
  apply (embed_texts_stable_partition warm_engine [chunk_a; chunk_b]).
  - exact warm_cache_writable.
  - exact unit_model_answers.
Defined.

(** C3, counterexample.  Two valid chunks are given in the order a, b; the
    text of b is in the cache and the text of a is not; [embed_texts]
    returns them in the order b, a. *)
Lemma embed_texts_reorders :
  map chunk_id [chunk_a; chunk_b] = [Some ("a" : str); Some ("b" : str)]
  /\ exists out,
       fst (embed_texts warm_engine [chunk_a; chunk_b]) = Ok out
       /\ map chunk_id out = [Some ("b" : str); Some ("a" : str)].
Proof.
  split; [reflexivity|].
  eexists. split; vm_compute; reflexivity.
Qed.


(** The chunk types the chunker and the enum declare are not among
    [ChunkType.values()], which lists "ChunkType.SWAGGER" and the like: a
    chunk of type "swagger" is coerced as well. *)
Example declared_value_is_coerced :
  known_type (value SWAGGER) = false
  /\ known_type "ChunkType.SWAGGER" = true
  /\ exists out self',
       embed_texts cold_engine [chunk_a] = (Ok out, self')
       /\ map chunk_type out = [Some (value TEXT)].
Proof.
  split; [reflexivity|]. split; [reflexivity|].
  eexists _, _. split; vm_compute; reflexivity.
Qed.

End EngineExamples.

(* ===================================================================== *)
(** * Properties of the fingerprint                                       *)
(* ===================================================================== *)

Section FingerprintExamples.
Import Py Constants EmbeddingCache.

(** The fingerprints of one text under two types, as Python computes
    them. *)
Example fingerprints_of_two_types :
  _compute_hash "GET /users" (EmbeddingEngine.type_metadata (value SWAGGER))
  = "f0ade986030955bf2dc7e31e1f9d756d68bdbf3127ef67ad33ac58060b055dff"
  /\ _compute_hash "GET /users" (EmbeddingEngine.type_metadata (value TEXT))
     = "8b60d4b169594c9cb595fa0cf328b8398d7defab58c8d2552b080fa034783a5e".
Proof. split; vm_compute; reflexivity. Qed.

End FingerprintExamples.

Section TypeSeparation.
Import Py Constants EmbeddingEngine Examples.


End TypeSeparation.

(* ===================================================================== *)
(** * Properties of the chunk extractor                                   *)
(* ===================================================================== *)

Section ChunkerProperties.
Import Py Constants SwaggerChunker.
Context {float : Type}.
Implicit Types (self other : SwaggerChunker float) (operation v : json)
  (method path : str) (endpoint : str * str * json) (chunk : Chunk float).

Lemma mapM_ext {A B : Type} (f g : A -> result B) (l : list A) :
  (forall a, f a = g a) -> mapM f l = mapM g l.
Proof.
  intros Hfg. induction l as [|a l IH]; cbn [mapM]; [reflexivity|].
  now rewrite Hfg, IH.
Qed.

(** ** The helpers read the document only *)

Lemma resolve_value_same self other v :
  Spec.same_document self other -> resolve_value self v = resolve_value other v.
Proof.
  intros (Hdoc & _). unfold resolve_value, _resolve_ref. now rewrite Hdoc.
Qed.

Lemma extract_parameters_same self other operation :
  Spec.same_document self other ->
  _extract_parameters self operation = _extract_parameters other operation.
Proof.
  intros Hsame. unfold _extract_parameters.
  destruct (get_default operation "parameters" (JList [])) as [params|e]; [|reflexivity].
  cbn [bind]. destruct (iter params) as [ps|e]; [|reflexivity]. cbn [bind].
  erewrite mapM_ext; [reflexivity|].
  intros param. cbv beta.
  destruct (contains "$ref" param) as [[|]|e]; cbn [bind]; try reflexivity.
  destruct (getitem param "$ref") as [r|e]; cbn [bind]; [|reflexivity].
  now rewrite (resolve_value_same self other r Hsame).
Qed.

Lemma first_body_same self other content :
  Spec.same_document self other -> first_body self content = first_body other content.
Proof.
  intros Hsame. induction content as [|[content_type media_obj] rest IH]; cbn [first_body];
    [reflexivity|].
  destruct (get media_obj "schema") as [schema|e]; cbn [bind]; [|reflexivity].
  destruct (negb (truthy schema)); [exact IH|].
  destruct (contains "$ref" schema) as [[|]|e]; cbn [bind]; try reflexivity.
  destruct (getitem schema "$ref") as [r|e]; cbn [bind]; [|reflexivity].
  now rewrite (resolve_value_same self other r Hsame).
Qed.

Lemma extract_request_body_same self other operation :
  Spec.same_document self other ->
  _extract_request_body self operation = _extract_request_body other operation.
Proof.
  intros Hsame. unfold _extract_request_body.
  destruct (get_default operation "requestBody" (JDict [])) as [body|e]; cbn [bind]; [|reflexivity].
  destruct (get_default body "content" (JDict [])) as [content|e]; cbn [bind]; [|reflexivity].
  destruct (items content) as [entries|e]; cbn [bind]; [|reflexivity].
  now apply first_body_same.
Qed.

Lemma response_media_same self other status_code resp content :
  Spec.same_document self other ->
  forall output,
    response_media self status_code resp content output
    = response_media other status_code resp content output.
Proof.
  intros Hsame. induction content as [|[media_type media_obj] rest IH]; intros output;
    cbn [response_media]; [reflexivity|].
  destruct (get_default media_obj "schema" (JDict [])) as [schema|e]; cbn [bind]; [|reflexivity].
  destruct (contains "$ref" schema) as [[|]|e]; cbn [bind]; try reflexivity.
  - destruct (getitem schema "$ref") as [r|e]; cbn [bind]; [|reflexivity].
    rewrite (resolve_value_same self other r Hsame).
    destruct (resolve_value other r) as [resolved|e]; cbn [bind]; [|reflexivity].
    destruct (get_default resp "description" (JStr "")); cbn [bind]; [apply IH|reflexivity].
  - destruct (get_default resp "description" (JStr "")); cbn [bind]; [apply IH|reflexivity].
Qed.

Lemma responses_loop_same self other responses :
  Spec.same_document self other ->
  forall output, responses_loop self responses output = responses_loop other responses output.
Proof.
  intros Hsame. induction responses as [|[status_code resp] rest IH]; intros output;
    cbn [responses_loop]; [reflexivity|].
  destruct (get_default resp "content" (JDict [])) as [content|e]; cbn [bind]; [|reflexivity].
  destruct (items content) as [entries|e]; cbn [bind]; [|reflexivity].
  rewrite (response_media_same self other status_code resp entries Hsame).
  destruct (response_media other status_code resp entries output); cbn [bind];
    [apply IH|reflexivity].
Qed.

Lemma extract_responses_same self other operation :
  Spec.same_document self other ->
  _extract_responses self operation = _extract_responses other operation.
Proof.
  intros Hsame. unfold _extract_responses.
  destruct (get_default operation "responses" (JDict [])) as [responses|e]; cbn [bind];
    [|reflexivity].
  destruct (items responses) as [entries|e]; cbn [bind]; [|reflexivity].
  now rewrite (responses_loop_same self other entries Hsame).
Qed.

Lemma extract_security_same self other operation :
  Spec.same_document self other ->
  _extract_security self operation = _extract_security other operation.
Proof.
  intros (_ & _ & Hsec). unfold _extract_security. now rewrite Hsec.
Qed.

Lemma operation_chunk_same self other endpoint :
  Spec.same_document self other ->
  operation_chunk self endpoint = operation_chunk other endpoint.
Proof.
  intros Hsame. destruct endpoint as [[method path] operation]. unfold operation_chunk.
  rewrite (extract_parameters_same self other operation Hsame),
    (extract_request_body_same self other operation Hsame),
    (extract_responses_same self other operation Hsame),
    (extract_security_same self other operation Hsame).
  unfold _base_metadata. destruct Hsame as (_ & Hfile & _). now rewrite Hfile.
Qed.

(** ** The text of a chunk is its composite text *)

Lemma strip_keeps (s : str) :
  (exists c s', s = c :: s' /\ is_space c = false) ->
  (exists s' d, s = s' ++ [d] /\ is_space d = false) ->
  strip s = s.
Proof.
  intros (c & s1 & Hhead & Hc) (s2 & d & Htail & Hd).
  unfold strip, lstrip_by, rstrip_by.
  assert (Hleft : drop_while is_space s = s)
    by (rewrite Hhead; cbn [drop_while]; now rewrite Hc).
  rewrite Hleft, Htail, rev_unit. cbn [drop_while]. rewrite Hd.
  change (d :: rev s2) with ([d] ++ rev s2).
  now rewrite rev_app_distr, rev_involutive.
Qed.

Lemma allowed_method_cases method :
  In method allowed_methods ->
  method = "get" \/ method = "post" \/ method = "put" \/ method = "delete" \/ method = "patch".
Proof.
  unfold allowed_methods. cbn [In]. intuition auto.
Qed.

Lemma base_text_starts method path summary parameters request_body responses security :
  In method allowed_methods ->
  exists c s',
    base_text method path summary parameters request_body responses security = c :: s'
    /\ is_space c = false.
Proof.
  intros Hin. unfold base_text.
  destruct (allowed_method_cases method Hin) as [-> | [-> | [-> | [-> | ->]]]];
    destruct request_body; eexists _, _; (split; [reflexivity|reflexivity]).
Qed.

Lemma base_text_ends method path summary parameters request_body responses security :
  exists s' d,
    base_text method path summary parameters request_body responses security = s' ++ [d]
    /\ is_space d = false.
Proof.
  unfold base_text. cbn [repr]. eexists _, "]"%char. split; [|reflexivity]. rewrite !app_assoc. reflexivity.
Qed.

(** ** The endpoints carry allowed methods *)

Lemma mapM_In {A B : Type} (f : A -> result B) (l : list A) : forall bs b,
  mapM f l = Ok bs -> In b bs -> exists a, In a l /\ f a = Ok b.
Proof.
  induction l as [|a l IH]; intros bs b Hmap Hin; cbn [mapM] in Hmap.
  - injection Hmap as <-. contradiction.
  - destruct (f a) as [b0|e] eqn:Hfa; cbn [bind] in Hmap; [|discriminate].
    destruct (mapM f l) as [bs0|e]; cbn [bind] in Hmap; [|discriminate].
    injection Hmap as <-. destruct Hin as [<-|Hin].
    + exists a. split; [now left|exact Hfa].
    + destruct (IH bs0 b eq_refl Hin) as (a' & Ha' & Hfa'). exists a'. split; [now right|exact Hfa'].
Qed.

Lemma mapM_Forall2 {A B : Type} (f : A -> result B) (l : list A) : forall bs,
  mapM f l = Ok bs -> Forall2 (fun a b => f a = Ok b) l bs.
Proof.
  induction l as [|a l IH]; intros bs Hmap; cbn [mapM] in Hmap.
  - injection Hmap as <-. constructor.
  - destruct (f a) as [b0|e] eqn:Hfa; cbn [bind] in Hmap; [|discriminate].
    destruct (mapM f l) as [bs0|e]; cbn [bind] in Hmap; [|discriminate].
    injection Hmap as <-. constructor; [exact Hfa|now apply IH].
Qed.

Lemma mapM_total {A B : Type} (f : A -> result B) (l : list A) :
  (forall a, In a l -> is_ok (f a) = true) -> exists bs, mapM f l = Ok bs.
Proof.
  induction l as [|a l IH]; intros Hok; cbn [mapM].
  - now exists [].
  - pose proof (Hok a (or_introl eq_refl)) as Ha.
    destruct (f a) as [b|e]; [|discriminate]. cbn [bind].
    destruct IH as (bs & ->); [intros a' Ha'; apply Hok; now right|].
    cbn [bind]. now exists (b :: bs).
Qed.

Lemma path_operations_allowed path methods endpoint :
  In endpoint (path_operations path methods) -> In (fst (fst endpoint)) allowed_methods.
Proof.
  unfold path_operations. intros Hin.
  apply in_flat_map in Hin as ([method op] & _ & Hin).
  destruct (method_allowed method) eqn:Hallowed; [|contradiction].
  destruct Hin as [<-|[]]. cbn [fst].
  unfold method_allowed in Hallowed.
  apply existsb_exists in Hallowed as (known & Hknown & Heq).
  unfold str_eqb in Heq. apply bool_decide_eq_true in Heq. now rewrite Heq.
Qed.

Lemma extract_endpoints_allowed self endpoints endpoint :
  _extract_endpoints self = Ok endpoints ->
  In endpoint endpoints ->
  In (fst (fst endpoint)) allowed_methods.
Proof.
  unfold _extract_endpoints. intros Hext Hin.
  destruct (get_default (swagger self) "paths" (JDict [])) as [paths|e]; cbn [bind] in Hext;
    [|discriminate].
  destruct (items paths) as [entries|e]; cbn [bind] in Hext; [|discriminate].
  destruct (mapM _ entries) as [per_path|e] eqn:Hmap; cbn [bind] in Hext; [|discriminate].
  injection Hext as <-.
  apply in_concat in Hin as (ops & Hops & Hin).
  destruct (mapM_In _ _ _ _ Hmap Hops) as ([path methods] & _ & Hpath).
  destruct (items methods) as [ms|e]; cbn [bind] in Hpath; [|discriminate].
  injection Hpath as <-. now apply path_operations_allowed in Hin.
Qed.

(** ** One operation, one chunk *)

Lemma operation_chunk_shape self endpoint chunk :
  In (fst (fst endpoint)) allowed_methods ->
  operation_chunk self endpoint = Ok chunk ->
  Spec.id_of_text chunk /\ Spec.describes endpoint chunk.
Proof.
  destruct endpoint as [[method path] operation]. cbn [fst]. intros Hmethod Hchunk.
  unfold operation_chunk in Hchunk.
  destruct (get_default operation "operationId" _) as [operation_id|e] eqn:Hid;
    cbn [bind] in Hchunk; [|discriminate].
  do 5 bind_ok Hchunk. injection Hchunk as <-. split.
  - eexists. cbn [chunk_text chunk_id]. split; [reflexivity|].
    unfold _generate_chunk_id.
    now rewrite (strip_keeps _ (base_text_starts _ _ _ _ _ _ _ Hmethod) (base_text_ends _ _ _ _ _ _ _)).
  - unfold Spec.describes. cbn [chunk_type chunk_metadata]. split; [reflexivity|].
    eexists. split; [reflexivity|]. repeat split; try reflexivity.
    unfold Spec.operation_id_of. destruct operation; try discriminate.
    cbn [get_default] in Hid. injection Hid as <-. reflexivity.
Qed.

(** The loop appends, to the chunks held, the chunk of each endpoint in
    order, or stops at the first operation that raises. *)
Lemma extract_loop_spec endpoints : forall self,
  match mapM (operation_chunk self) endpoints with
  | Ok new =>
      exists self', extract_loop self endpoints = (Ok tt, self')
                    /\ chunks self' = chunks self ++ new
                    /\ Spec.same_document self self'
  | Raise e => exists self', extract_loop self endpoints = (Raise e, self')
  end.
Proof.
  induction endpoints as [|endpoint rest IH]; intros self; cbn [mapM extract_loop].
  - exists self. rewrite app_nil_r. repeat split.
  - destruct (operation_chunk self endpoint) as [chunk|e]; cbn [bind]; [|now exists self].
    set (self1 := mkChunker (swagger self) (source_file self) (components self)
                    (security_schemes self) (global_security self) (chunks self ++ [chunk])).
    assert (Hsame : Spec.same_document self self1) by (repeat split).
    rewrite (mapM_ext (operation_chunk self) (operation_chunk self1))
      by (intros ep; now apply operation_chunk_same).
    specialize (IH self1).
    destruct (mapM (operation_chunk self1) rest) as [new|e]; cbn [bind].
    + destruct IH as (self' & Hloop & Hchunks & (Hd & Hf & Hs)).
      exists self'. split; [exact Hloop|]. split.
      * rewrite Hchunks. subst self1. cbn [chunks]. now rewrite <- app_assoc.
      * repeat split; assumption.
    + exact IH.
Qed.

Lemma extract_chunks_spec self endpoints :
  _extract_endpoints self = Ok endpoints ->
  match mapM (operation_chunk self) endpoints with
  | Ok new => fst (extract_chunks self) = Ok (chunks self ++ new)
  | Raise e => fst (extract_chunks self) = Raise e
  end.
Proof.
  intros Hends. unfold extract_chunks. rewrite Hends.
  pose proof (extract_loop_spec endpoints self) as Hloop.
  destruct (mapM (operation_chunk self) endpoints) as [new|e].
  - destruct Hloop as (self' & -> & Hchunks & _). cbn [fst]. now rewrite Hchunks.
  - destruct Hloop as (self' & ->). reflexivity.
Qed.

Lemma init_fresh doc file self : init doc file = Ok self -> chunks self = [].
Proof.
  unfold init. intros Hinit. do 4 bind_ok Hinit. now injection Hinit as <-.
Qed.

Lemma chunks_of_endpoints self endpoints new :
  _extract_endpoints self = Ok endpoints ->
  mapM (operation_chunk self) endpoints = Ok new ->
  Forall2 Spec.describes endpoints new /\ Forall Spec.id_of_text new.
Proof.
  intros Hends Hmap.
  pose proof (mapM_Forall2 _ _ _ Hmap) as Hall.
  assert (Hallowed : Forall (fun endpoint => In (fst (fst endpoint)) allowed_methods) endpoints)
    by (apply List.Forall_forall; intros endpoint Hin; now apply (extract_endpoints_allowed self endpoints)).
  clear Hmap Hends. induction Hall as [|endpoint chunk rest new Hchunk Hrest IH].
  - split; constructor.
  - inversion Hallowed as [|? ? Hmethod Hothers]; subst.
    destruct (operation_chunk_shape self endpoint chunk Hmethod Hchunk) as [Hid Hdesc].
    destruct (IH Hothers) as [Hdescs Hids].
    split; constructor; assumption.
Qed.

(** C2 (as amended).  For a chunker built from a document, whose paths
    section enumerates [endpoints]: when no operation raises while its
    fields are extracted, [extract_chunks] returns; and what it returns
    holds exactly one chunk per enumerated operation, in order, each of the
    type [ChunkType.SWAGGER] ("swagger") and with metadata that carry the
    operation's method, path and operation id (the operationId, or the
    method and the path joined by '_' with every '/' replaced by '_'). *)
Theorem extract_one_chunk_per_operation doc file self endpoints :
  init doc file = Ok self ->
  _extract_endpoints self = Ok endpoints ->
  ((forall endpoint, In endpoint endpoints -> is_ok (operation_chunk self endpoint) = true) ->
   exists extracted, fst (extract_chunks self) = Ok extracted)
  /\ (forall extracted, fst (extract_chunks self) = Ok extracted ->
        Forall2 Spec.describes endpoints extracted).
Proof.
  intros Hinit Hends.
  pose proof (extract_chunks_spec self endpoints Hends) as Hspec.
  rewrite (init_fresh doc file self Hinit) in Hspec. cbn [app] in Hspec. split.
  - intros Hok. destruct (mapM_total _ _ Hok) as (new & Hmap).
    rewrite Hmap in Hspec. now exists new.
  - intros extracted Hrun.
    destruct (mapM (operation_chunk self) endpoints) as [new|e] eqn:Hmap.
    + rewrite Hrun in Hspec. injection Hspec as ->.
      now apply (chunks_of_endpoints self endpoints new).
    + rewrite Hrun in Hspec. discriminate.
Qed.

(** ** The text of a chunk is read off the document alone *)











(** A chunker keeps its chunks: a second [extract_chunks] on the same
    chunker returns the chunks of the first call followed by the same
    chunks once more. *)
Lemma extract_chunks_accumulates self self' (extracted : list (Chunk float)) :
  chunks self = [] ->
  extract_chunks self = (Ok extracted, self') ->
  fst (extract_chunks self') = Ok (extracted ++ extracted).
Proof.
  intros Hfresh Hrun. unfold extract_chunks in Hrun.
  destruct (_extract_endpoints self) as [endpoints|e] eqn:Hends; [|discriminate].
  pose proof (extract_loop_spec endpoints self) as Hloop.
  destruct (mapM (operation_chunk self) endpoints) as [new|e] eqn:Hmap.
  - destruct Hloop as (self1 & Hl & Hchunks & Hsame). rewrite Hl in Hrun.
    injection Hrun as <- <-. rewrite Hfresh, app_nil_l in Hchunks.
    assert (Hends1 : _extract_endpoints self1 = Ok endpoints)
      by (unfold _extract_endpoints in *; destruct Hsame as (<- & _); exact Hends).
    pose proof (extract_chunks_spec self1 endpoints Hends1) as Hspec.
    rewrite <- (mapM_ext (operation_chunk self) (operation_chunk self1)) in Hspec
      by (intros ep; now apply operation_chunk_same).
    rewrite Hmap in Hspec. now rewrite Hspec, Hchunks.
  - destruct Hloop as (self1 & Hl). rewrite Hl in Hrun. discriminate.
Qed.


End ChunkerProperties.

Section ChunkerExamples.
Import Py Constants SwaggerChunker Examples.

(** The sample document, extracted: one chunk, with the id and the text
    Python computes for it. *)
Example users_extraction : Spec.extract users_doc "specs/api.yaml" = Ok [users_chunk].
Proof. vm_compute. reflexivity. Qed.


Lemma extract_one_chunk_per_operation_witness :
  (exists extracted, fst (extract_chunks users_chunker) = Ok extracted)
  /\ Forall2 Spec.describes [users_endpoint] [users_chunk].
Proof.
  destruct (extract_one_chunk_per_operation users_doc "specs/api.yaml" users_chunker
              [users_endpoint] eq_refl eq_refl) as [Hreturns Hdescribes].
  split.
  - apply Hreturns. intros endpoint [<-|[]]. vm_compute. reflexivity.
  - apply Hdescribes. vm_compute. reflexivity.
Defined.

(** C2, counterexample.  The one operation of the sample document yields
    one chunk, and its type is "swagger", not "operation". *)
Lemma extracted_chunk_type_is_swagger :
  exists chunk : Chunk Z,
    Spec.extract users_doc "specs/api.yaml" = Ok [chunk]
    /\ chunk_type chunk = Some ("swagger" : str)
    /\ chunk_type chunk <> Some ("operation" : str).
Proof.
  exists users_chunk. split; [vm_compute; reflexivity|]. split; [reflexivity|discriminate].
Qed.

(** The same chunker asked twice: the second answer holds the chunk twice. *)
Example users_extraction_twice :
  fst (extract_chunks (snd (extract_chunks users_chunker))) = Ok [users_chunk; users_chunk].
Proof. vm_compute. reflexivity. Qed.

End ChunkerExamples.

(* ===================================================================== *)
(** * Laws of the insertion-ordered dict                                  *)
(* ===================================================================== *)

Section DictLaws.
Import Py.

Lemma str_eqb_eq (a b : str) : str_eqb a b = true <-> a = b.
Proof. unfold str_eqb. apply bool_decide_eq_true. Qed.

Lemma str_eqb_refl (a : str) : str_eqb a a = true.
Proof. now apply str_eqb_eq. Qed.

Lemma str_eqb_neq (a b : str) : a <> b -> str_eqb a b = false.
Proof. intros Hne. unfold str_eqb. now apply bool_decide_eq_false. Qed.

Lemma assoc_dict_set_eq {V : Type} (k : str) (v : V) (d : list (str * V)) :
  assoc k (dict_set k v d) = Some v.
Proof.
  induction d as [|[k' v'] d IH]; cbn [dict_set assoc].
  - now rewrite str_eqb_refl.
  - destruct (str_eqb k k') eqn:Hk; cbn [assoc]; [now rewrite str_eqb_refl|].
    now rewrite Hk.
Qed.

Lemma assoc_dict_set_ne {V : Type} (k k' : str) (v : V) (d : list (str * V)) :
  k <> k' -> assoc k (dict_set k' v d) = assoc k d.
Proof.
  intros Hne. induction d as [|[k0 v0] d IH]; cbn [dict_set assoc].
  - now rewrite str_eqb_neq.
  - destruct (str_eqb k' k0) eqn:Hk; cbn [assoc].
    + apply str_eqb_eq in Hk. subst k0. now rewrite str_eqb_neq.
    + now rewrite IH.
Qed.

Lemma assoc_absent {V : Type} (k : str) (d : list (str * V)) :
  k ∉ map fst d -> assoc k d = None.
Proof.
  induction d as [|[k' v'] d IH]; cbn [map fst assoc]; [reflexivity|].
  intros Hnot. apply not_elem_of_cons in Hnot as [Hne Hnot].
  rewrite str_eqb_neq by exact Hne. now apply IH.
Qed.

(** [{**d, **base_meta}]: the keys of [base_meta] win. *)
Lemma assoc_update {V : Type} (k : str) (base : list (str * V)) : forall d,
  NoDup (map fst base) ->
  assoc k (fold_left (fun d kv => dict_set (fst kv) (snd kv) d) base d)
  = match assoc k base with Some v => Some v | None => assoc k d end.
Proof.
  induction base as [|[k0 v0] rest IH]; intros d Hkeys; cbn [fold_left assoc fst snd];
    [reflexivity|].
  cbn [map fst] in Hkeys. apply NoDup_cons in Hkeys as [Hfirst Hrest].
  rewrite (IH _ Hrest). destruct (str_eqb k k0) eqn:Hk.
  - apply str_eqb_eq in Hk. subst k0.
    now rewrite (assoc_absent _ _ Hfirst), assoc_dict_set_eq.
  - destruct (assoc k rest); [reflexivity|].
    apply assoc_dict_set_ne. intros ->. now rewrite str_eqb_refl in Hk.
Qed.

Lemma has_key_dict_set {V : Type} (k k' : str) (v : V) (d : list (str * V)) :
  has_key k (dict_set k' v d) = str_eqb k k' || has_key k d.
Proof.
  unfold has_key. destruct (str_eqb k k') eqn:Hk.
  - apply str_eqb_eq in Hk. subst k'. now rewrite assoc_dict_set_eq.
  - rewrite assoc_dict_set_ne; [reflexivity|]. intros ->. now rewrite str_eqb_refl in Hk.
Qed.

End DictLaws.

(* ===================================================================== *)
(** * Identifiers and fingerprints: format and canonical form            *)
(* ===================================================================== *)

Section DigestFormat.
Import Py.

Lemma hex_digit_is_hex (n : N) : (n < 16)%N -> Props.is_hex_digit (hex_digit n) = true.
Proof.
  intros Hn.
  assert (Hcases : In n [0; 1; 2; 3; 4; 5; 6; 7; 8; 9; 10; 11; 12; 13; 14; 15]%N)
    by (cbn [In]; lia).
  cbn [In] in Hcases.
  repeat (destruct Hcases as [<-|Hcases]; [reflexivity|]). contradiction.
Qed.

Lemma hex_format digits x :
  length (SHA256.hex digits x) = digits
  /\ Forall (fun c => Props.is_hex_digit c = true) (SHA256.hex digits x).
Proof.
  revert x. induction digits as [|d IH]; intros x; cbn [SHA256.hex].
  - split; [reflexivity|constructor].
  - destruct (IH (x / 16)%N) as [Hlen Hall]. split.
    + rewrite length_app, Hlen. cbn [length]. lia.
    + apply Forall_app. split; [exact Hall|].
      constructor; [|constructor]. apply hex_digit_is_hex. apply N.mod_lt. discriminate.
Qed.

(** X1.  A chunk id is always 16 characters long, each of them one of
    0-9 and a-f, whatever text it is made from. *)
Theorem chunk_id_format (base : str) :
  length (SwaggerChunker._generate_chunk_id base) = 16
  /\ Forall (fun c => Props.is_hex_digit c = true) (SwaggerChunker._generate_chunk_id base).
Proof.
  unfold SwaggerChunker._generate_chunk_id, SHA256.hexdigest.
  destruct (hex_format 64 (SHA256.sha256 (encode_utf8 base))) as [Hlen Hall]. split.
  - rewrite length_firstn, Hlen. reflexivity.
  - now apply Forall_take.
Qed.

End DigestFormat.

Section CanonicalForm.
Import Py EmbeddingCache.
Implicit Types (s t pre post text : str) (a b c : str).

Lemma drop_while_blank pre s :
  Props.blank pre = true -> drop_while is_space (pre ++ s) = drop_while is_space s.
Proof.
  unfold Props.blank. induction pre as [|x pre IH]; cbn [forallb app drop_while]; [reflexivity|].
  intros Hpre. apply andb_prop in Hpre as [Hx Hpre]. rewrite Hx. now apply IH.
Qed.

Lemma drop_while_all s : Props.blank s = true -> drop_while is_space s = [].
Proof.
  intros Hs. rewrite <- (app_nil_r s). now rewrite (drop_while_blank s [] Hs).
Qed.

Lemma drop_while_not_blank s t :
  Props.blank s = false -> drop_while is_space (s ++ t) = drop_while is_space s ++ t.
Proof.
  unfold Props.blank. induction s as [|x s IH]; cbn [forallb app drop_while]; [discriminate|].
  destruct (is_space x); cbn [andb]; [exact IH|reflexivity].
Qed.

Lemma blank_rev s : Props.blank (rev s) = Props.blank s.
Proof.
  unfold Props.blank. induction s as [|x s IH]; [reflexivity|].
  cbn [rev forallb]. rewrite forallb_app, IH. cbn [forallb]. destruct (is_space x), (forallb is_space s); reflexivity.
Qed.

Lemma drop_while_rest_not_blank s :
  Props.blank s = false -> Props.blank (rev (drop_while is_space s)) = false.
Proof.
  rewrite blank_rev. unfold Props.blank.
  induction s as [|x s IH]; cbn [forallb drop_while]; [discriminate|].
  destruct (is_space x) eqn:Hx; cbn [andb]; [exact IH|].
  intros _. cbn [forallb]. now rewrite Hx.
Qed.

(** [strip] sees through white space around the text. *)
Lemma strip_padded pre text post :
  Props.blank pre = true -> Props.blank post = true ->
  strip (pre ++ text ++ post) = strip text.
Proof.
  intros Hpre Hpost. unfold strip, lstrip_by, rstrip_by.
  rewrite (drop_while_blank pre _ Hpre).
  destruct (Props.blank text) eqn:Htext.
  - assert (Hall : Props.blank (text ++ post) = true)
      by (unfold Props.blank in *; now rewrite forallb_app, Htext, Hpost).
    now rewrite (drop_while_all _ Hall), (drop_while_all _ Htext).
  - rewrite (drop_while_not_blank _ post Htext), rev_app_distr.
    rewrite drop_while_blank by (now rewrite blank_rev). reflexivity.
Qed.

(** X3.  The fingerprint does not see white space around the text: a text
    and the same text between two runs of white space have one
    fingerprint, so one cache entry serves both. *)
Theorem fingerprint_ignores_surrounding_space text pre post
  (metadata : option (list (str * json))) :
  Props.blank pre = true ->
  Props.blank post = true ->
  _compute_hash (pre ++ text ++ post) metadata = _compute_hash text metadata.
Proof.
  intros Hpre Hpost. unfold _compute_hash, normalized.
  now rewrite (strip_padded pre text post Hpre Hpost).
Qed.

(** ** The order of the keys *)

Lemma code_inj (x y : ascii) : code x = code y -> x = y.
Proof.
  unfold code. intros Heq.
  rewrite <- (ascii_N_embedding x), <- (ascii_N_embedding y). now rewrite Heq.
Qed.

Lemma str_ltb_trichotomy : forall a b,
  str_ltb a b = true \/ a = b \/ str_ltb b a = true.
Proof.
  induction a as [|x a IH]; intros [|y b]; cbn [str_ltb]; auto.
  destruct (N.ltb_spec (code x) (code y)) as [Hxy|Hxy]; [now left|].
  destruct (N.ltb_spec (code y) (code x)) as [Hyx|Hyx]; [now right; right|].
  assert (x = y) as -> by (apply code_inj; lia).
  destruct (IH b) as [H|[->|H]]; auto.
Qed.

Lemma str_ltb_asym : forall a b, str_ltb a b = true -> str_ltb b a = false.
Proof.
  induction a as [|x a IH]; intros [|y b]; cbn [str_ltb]; try discriminate; auto.
  destruct (N.ltb_spec (code x) (code y)) as [Hxy|Hxy];
    destruct (N.ltb_spec (code y) (code x)) as [Hyx|Hyx];
    try discriminate; try lia; auto.
Qed.

Lemma str_ltb_trans : forall a b c,
  str_ltb a b = true -> str_ltb b c = true -> str_ltb a c = true.
Proof.
  induction a as [|x a IH]; intros [|y b] [|z c]; cbn [str_ltb]; try discriminate; auto.
  destruct (N.ltb_spec (code x) (code y)) as [Hxy|Hxy];
    destruct (N.ltb_spec (code y) (code x)) as [Hyx|Hyx];
    destruct (N.ltb_spec (code y) (code z)) as [Hyz|Hyz];
    destruct (N.ltb_spec (code z) (code y)) as [Hzy|Hzy];
    destruct (N.ltb_spec (code x) (code z)) as [Hxz|Hxz];
    destruct (N.ltb_spec (code z) (code x)) as [Hzx|Hzx];
    try discriminate; try lia; auto.
  apply IH.
Qed.

(** Not below [b] and below [a]: then [b] is below [a]. *)
Lemma str_ltb_between h a b :
  str_ltb h b = false -> str_ltb h a = true -> str_ltb b a = true.
Proof.
  intros Hhb Hha. destruct (str_ltb_trichotomy h b) as [H|[->|H]]; [congruence|exact Hha|].
  now apply (str_ltb_trans b h a).
Qed.

Lemma insert_by_key_swap (x y : str * str) (l : list (str * str)) :
  fst x <> fst y ->
  insert_by_key x (insert_by_key y l) = insert_by_key y (insert_by_key x l).
Proof.
  intros Hne.
  assert (Horder : (str_ltb (fst x) (fst y) = true /\ str_ltb (fst y) (fst x) = false)
                   \/ (str_ltb (fst y) (fst x) = true /\ str_ltb (fst x) (fst y) = false)).
  { destruct (str_ltb_trichotomy (fst x) (fst y)) as [H|[H|H]]; [left|contradiction|right];
      (split; [exact H|now apply str_ltb_asym]). }
  induction l as [|h l IH]; cbn [insert_by_key].
  - destruct Horder as [[-> ->]|[-> ->]]; reflexivity.
  - destruct (str_ltb (fst h) (fst y)) eqn:Hhy, (str_ltb (fst h) (fst x)) eqn:Hhx;
      cbn [insert_by_key]; rewrite ?Hhy, ?Hhx.
    + now rewrite IH.
    + rewrite (str_ltb_between _ _ _ Hhx Hhy). cbn [insert_by_key]. now rewrite ?Hhx, ?Hhy.
    + rewrite (str_ltb_between _ _ _ Hhy Hhx). cbn [insert_by_key]. now rewrite ?Hhx, ?Hhy.
    + destruct Horder as [[-> ->]|[-> ->]]; cbn [insert_by_key]; now rewrite ?Hhy, ?Hhx.
Qed.

Lemma sort_by_key_permutation (l1 l2 : list (str * str)) :
  Permutation l1 l2 -> NoDup (map fst l1) -> sort_by_key l1 = sort_by_key l2.
Proof.
  unfold sort_by_key.
  induction 1 as [|x l1 l2 Hperm IH|x y l|l1 l2 l3 H12 IH12 H23 IH23]; intros Hnodup;
    cbn [fold_right map] in *.
  - reflexivity.
  - rewrite IH; [reflexivity|]. now apply NoDup_cons_1_2 in Hnodup.
  - apply insert_by_key_swap. intros Heq.
    apply NoDup_cons in Hnodup as [Hnotin _]. apply Hnotin. rewrite Heq. now left.
  - rewrite IH12 by assumption. apply IH23.
    assert (Hkeys : Permutation (map fst l1) (map fst l2)) by now apply Permutation_map.
    now rewrite <- Hkeys.
Qed.

(** X4.  The fingerprint does not depend on the order in which the keys of
    the metadata were written: two metadata dicts that hold the same
    entries in different orders give one fingerprint. *)
Theorem fingerprint_ignores_key_order text (m1 m2 : list (str * json)) :
  Permutation m1 m2 ->
  NoDup (map fst m1) ->
  _compute_hash text (Some m1) = _compute_hash text (Some m2).
Proof.
  intros Hperm Hnodup. unfold _compute_hash, normalized, metadata_or_empty.
  cbn [dumps map].
  rewrite (sort_by_key_permutation
             (map (fun kv : str * json => let '(k, x) := kv in (k, dumps x)) m1)
             (map (fun kv : str * json => let '(k, x) := kv in (k, dumps x)) m2)).
  - reflexivity.
  - now apply Permutation_map.
  - rewrite map_map. erewrite map_ext; [exact Hnodup|]. now intros [k x].
Qed.

End CanonicalForm.

(* ===================================================================== *)
(** * The cache under failure, and what [add] leaves alone                *)
(* ===================================================================== *)

Section CacheBehaviour.
Import Py EmbeddingCache.
Context {float : Type} `{!IndexCodec float}.
Implicit Types (self : EmbeddingCache float) (text : str)
  (metadata : option (list (str * json))) (embedding : list float).

(** X5.  When the lock cannot be had, [add] raises the Timeout of
    filelock, and yet the process has the entry: the vector was put in
    memory before the save was tried, so [get] returns it, while the file
    on disk is as it was. *)
Theorem add_on_lock_timeout self text embedding metadata :
  lock_free self = false ->
  exists self',
    add self text embedding metadata = (Raise Timeout, self')
    /\ get self' text metadata = Some embedding
    /\ index_file self' = index_file self.
Proof.
  intros Hlock. unfold add, _save_index. cbn [lock_free]. rewrite Hlock. cbn [negb].
  eexists. split; [reflexivity|]. split; [|reflexivity].
  unfold get. cbn [_cache]. apply lookup_insert_eq.
Qed.

(** X6.  [add] touches one fingerprint only: an entry filed under another
    fingerprint is read as before, no entry is lost, and [size()] grows by
    one at most. *)
Theorem add_keeps_other_entries self text embedding metadata text' metadata' :
  _compute_hash text' metadata' <> _compute_hash text metadata ->
  get (snd (add self text embedding metadata)) text' metadata' = get self text' metadata'
  /\ size self <= size (snd (add self text embedding metadata)) <= S (size self).
Proof.
  intros Hother. unfold get, size. rewrite add_cache. split.
  - now apply lookup_insert_ne.
  - destruct (_cache self !! _compute_hash text metadata) as [old|] eqn:Hold.
    + rewrite map_size_insert_Some by (now exists old). lia.
    + rewrite map_size_insert_None by assumption. lia.
Qed.


(** X8.  What is cached survives a restart.  With a codec whose
    [load_index] reads back what [dump_index] wrote, after an [add] that
    returned, a cache built anew from the index file holds exactly the
    entries the first cache held, the new one among them. *)
Theorem index_survives_restart self self' text embedding metadata :
  (forall index : gmap str (list float),
     utf8_valid (dump_index index) = true /\ load_index (dump_index index) = Ok index) ->
  add self text embedding metadata = (Ok tt, self') ->
  exists restarted,
    init (index_file self') true = Ok restarted
    /\ _cache restarted = _cache self'
    /\ get restarted text metadata = Some embedding.
Proof.
  intros Hcodec Hadd. unfold add, _save_index in Hadd. cbn [lock_free index_file _cache] in Hadd.
  destruct (lock_free self); cbn [negb] in Hadd; [|discriminate].
  set (index := <[_compute_hash text metadata := embedding]> (_cache self)) in *.
  destruct (Hcodec index) as [Hutf Hload].
  assert (Hself : self' = mkCache index (File true (dump_index index)) true)
    by (destruct (index_file self) as [|[|] content]; now inversion Hadd).
  subst self'. cbn [index_file _cache].
  unfold init, _load_index, read_index. cbn [negb]. rewrite Hutf, Hload. cbn [negb bind].
  eexists. split; [reflexivity|]. split; [reflexivity|].
  unfold get. cbn [_cache]. subst index. apply lookup_insert_eq.
Qed.

End CacheBehaviour.

(* ===================================================================== *)
(** * What [embed_texts] returns, caches and surfaces                     *)
(* ===================================================================== *)

Section EngineBehaviour.
Import Py Constants EmbeddingEngine.
Context {float : Type} `{!EmbeddingCache.IndexCodec float}.
Implicit Types (self : EmbeddingEngine float) (c : EmbeddingCache.EmbeddingCache float)
  (chunk : Chunk float) (chunks validated enriched to_embed : list (Chunk float))
  (embeddings : list (list float)).

Lemma validate_length chunks :
  length (validate chunks) = length (List.filter has_required_keys chunks).
Proof.
  induction chunks as [|chunk rest IH]; cbn [validate List.filter]; [reflexivity|].
  destruct (has_required_keys chunk) eqn:Hreq; cbn [negb]; [|exact IH].
  destruct (has_required_keys_fields _ Hreq) as (i & ty & text & _ & -> & _).
  cbn [length]. now rewrite IH.
Qed.

Lemma known_type_true ty : known_type ty = true -> In ty values.
Proof.
  unfold known_type. intros Hex.
  apply existsb_exists in Hex as (known & Hin & Heq).
  unfold str_eqb in Heq. apply bool_decide_eq_true in Heq. now subst known.
Qed.

Lemma validate_typed chunks :
  Forall (fun chunk => exists ty, chunk_type chunk = Some ty /\ (In ty values \/ ty = value TEXT))
         (validate chunks).
Proof.
  induction chunks as [|chunk rest IH]; cbn [validate]; [constructor|].
  destruct (has_required_keys chunk); cbn [negb]; [|exact IH].
  destruct (chunk_type chunk) as [ty|] eqn:Hty; [|exact IH].
  constructor; [|exact IH].
  destruct (known_type ty) eqn:Hknown.
  - exists ty. split; [exact Hty|]. left. now apply known_type_true.
  - exists (value TEXT). split; [reflexivity|]. now right.
Qed.

Lemma hits_of_length c validated :
  length (Spec.hits_of c validated) = length (List.filter (Spec.is_hit c) validated).
Proof.
  rewrite <- (length_map Spec.forget (Spec.hits_of c validated)), forget_hits.
  apply length_map.
Qed.

Lemma attach_all_length to_embed embeddings :
  length embeddings = length to_embed ->
  length (Spec.attach_all to_embed embeddings) = length to_embed.
Proof.
  intros Hlen. unfold Spec.attach_all. rewrite length_map, length_combine. lia.
Qed.

Lemma partition_length (p : Chunk float -> bool) validated :
  length (List.filter p validated) + length (List.filter (fun chunk => negb (p chunk)) validated)
  = length validated.
Proof.
  induction validated as [|chunk rest IH]; cbn [List.filter]; [reflexivity|].
  destruct (p chunk); cbn [negb length]; lia.
Qed.

Lemma hits_of_Forall (P : Chunk float -> Prop) c validated :
  (forall chunk x v, In chunk validated -> P (set_embedding chunk (x :: v))) ->
  Forall P (Spec.hits_of c validated).
Proof.
  intros HP. apply List.Forall_forall. intros enriched Hin.
  unfold Spec.hits_of in Hin. apply in_flat_map in Hin as (chunk & Hchunk & Hin).
  unfold Spec.cached_vector in Hin.
  destruct (chunk_text chunk) as [text|]; [|contradiction].
  destruct (chunk_type chunk) as [ty|]; [|contradiction].
  destruct (EmbeddingCache.get c text (type_metadata ty)) as [[|x v]|]; try contradiction.
  destruct Hin as [<-|[]]. now apply HP.
Qed.

Lemma attach_all_Forall (P : Chunk float -> Prop) to_embed embeddings :
  (forall chunk v, In chunk to_embed -> P (set_embedding chunk v)) ->
  Forall P (Spec.attach_all to_embed embeddings).
Proof.
  intros HP. apply List.Forall_forall. intros enriched Hin.
  unfold Spec.attach_all in Hin. apply in_map_iff in Hin as ([chunk v] & <- & Hin).
  apply in_combine_l in Hin. now apply HP.
Qed.

(** X9.  When the index can be saved and the embedding service answers,
    [embed_texts] returns one chunk for every input chunk that has an id, a
    type and a text, and no other; every returned chunk has its id, its
    text, an embedding, and a type that is one of [ChunkType.values()] or
    the one of [ChunkType.TEXT]. *)
Theorem embed_texts_returns_complete_chunks self chunks :
  Spec.writable (cache self) ->
  Spec.answers_every_text (model self) ->
  exists out self',
    embed_texts self chunks = (Ok out, self')
    /\ length out = length (List.filter has_required_keys chunks)
    /\ Forall (fun chunk =>
                 exists i ty text v,
                   chunk_id chunk = Some i /\ chunk_type chunk = Some ty
                   /\ chunk_text chunk = Some text /\ chunk_embedding chunk = Some v
                   /\ (In ty values \/ ty = value TEXT)) out.
Proof.
  intros Hw Hmodel.
  destruct (embed_texts_spec self chunks Hw Hmodel) as (embeddings & self' & Hlen & Hrun).
  eexists _, self'. split; [exact Hrun|]. split.
  - rewrite length_app, hits_of_length, attach_all_length by exact Hlen.
    unfold Spec.is_miss. now rewrite partition_length, validate_length.
  - assert (Hcomplete : forall chunk v, In chunk (validate chunks) ->
              exists i ty text w,
                chunk_id (set_embedding chunk v) = Some i
                /\ chunk_type (set_embedding chunk v) = Some ty
                /\ chunk_text (set_embedding chunk v) = Some text
                /\ chunk_embedding (set_embedding chunk v) = Some w
                /\ (In ty values \/ ty = value TEXT)).
    { intros chunk v Hin.
      pose proof (validate_required chunks) as Hreq.
      pose proof (validate_typed chunks) as Htyped.
      rewrite List.Forall_forall in Hreq, Htyped.
      destruct (has_required_keys_fields _ (Hreq chunk Hin)) as (i & ty & text & Hi & Hty & Htext).
      destruct (Htyped chunk Hin) as (ty' & Hty' & Hknown).
      exists i, ty, text, v. cbn [set_embedding chunk_id chunk_type chunk_text chunk_embedding].
      repeat split; try assumption. congruence. }
    apply Forall_app. split.
    + apply hits_of_Forall. intros chunk x v Hin. now apply Hcomplete.
    + apply attach_all_Forall. intros chunk v Hin. apply Hcomplete.
      now apply filter_In in Hin as [Hin _].
Qed.

(** X10.  When a chunk has to be embedded and the embedding service fails,
    [embed_texts] raises the error of the service: no chunk is returned,
    not even those found in the cache, and the engine and its cache are as
    they were. *)
Theorem embed_texts_model_failure self chunks e :
  (forall texts, model self texts = Raise e) ->
  (exists chunk, In chunk (validate chunks) /\ Spec.is_miss (cache self) chunk = true) ->
  embed_texts self chunks = (Raise e, self).
Proof.
  intros Hfail (chunk & Hin & Hmiss). unfold embed_texts.
  pose proof (validate_required chunks) as Hreq.
  rewrite (split_cached_spec _ _ [] [] Hreq), !app_nil_l. cbv beta iota.
  assert (Hmisses : Forall (fun chunk => has_required_keys chunk = true)
                      (List.filter (Spec.is_miss (cache self)) (validate chunks)))
    by now apply filter_required.
  assert (Hone : In chunk (List.filter (Spec.is_miss (cache self)) (validate chunks)))
    by (apply filter_In; now split).
  destruct (List.filter (Spec.is_miss (cache self)) (validate chunks)) as [|first rest];
    [contradiction|].
  destruct (mapM_text _ Hmisses) as (texts & -> & _). cbn [bind].
  now rewrite Hfail.
Qed.






Lemma filter_all {A : Type} (p : A -> bool) (l : list A) :
  (forall a, In a l -> p a = true) -> List.filter p l = l.
Proof.
  induction l as [|a l IH]; intros Hall; cbn [List.filter]; [reflexivity|].
  rewrite (Hall a (or_introl eq_refl)). f_equal. apply IH. intros b Hb. apply Hall. now right.
Qed.




Lemma declared_type_unknown (m : ChunkType) : known_type (value m) = false.
Proof. destruct m; reflexivity. Qed.

Lemma validate_declared chunks :
  Forall (fun chunk => exists m, chunk_type chunk = Some (value m)) chunks ->
  Forall (fun chunk => chunk_type chunk = Some (value TEXT)) (validate chunks).
Proof.
  induction 1 as [|chunk rest (m & Hm) Hrest IH]; cbn [validate]; [constructor|].
  destruct (has_required_keys chunk); cbn [negb]; [|exact IH].
  rewrite Hm, declared_type_unknown. now constructor.
Qed.

(** X12.  The types the code base declares do not pass the check of
    [embed_texts]: [ChunkType.values()] lists the names
    ("ChunkType.SWAGGER"), not the values ("swagger").  So chunks typed with
    the value of any member of [ChunkType], those of the chunker among
    them, all come back typed [ChunkType.TEXT] ("free_text"). *)
Theorem declared_types_become_free_text self chunks :
  Spec.writable (cache self) ->
  Spec.answers_every_text (model self) ->
  Forall (fun chunk => exists m, chunk_type chunk = Some (value m)) chunks ->
  exists out self',
    embed_texts self chunks = (Ok out, self')
    /\ Forall (fun chunk => chunk_type chunk = Some (value TEXT)) out.
Proof.
  intros Hw Hmodel Hdeclared.
  destruct (embed_texts_spec self chunks Hw Hmodel) as (embeddings & self' & Hlen & Hrun).
  eexists _, self'. split; [exact Hrun|].
  pose proof (validate_declared chunks Hdeclared) as Htext.
  rewrite List.Forall_forall in Htext.
  apply Forall_app. split.
  - apply hits_of_Forall. intros chunk x v Hin. cbn [set_embedding chunk_type]. now apply Htext.
  - apply attach_all_Forall. intros chunk v Hin. cbn [set_embedding chunk_type]. apply Htext.
    now apply filter_In in Hin as [Hin _].
Qed.

End EngineBehaviour.

(* ===================================================================== *)
(** * What [add_documents] hands to the database                          *)
(* ===================================================================== *)

Section StoreBehaviour.
Import Py Constants VectorStore.
Context {float : Type}.
Variable collection_add :
  list (record float) -> list (record float) -> result (list (record float)).
Implicit Types (self : VectorStore float) (name : VectorStoreCollections)
  (documents : list str) (embeddings : list (list float))
  (metadatas : option (list (list (str * str)))) (ids : option (list str))
  (base_meta : list (str * str)).

(** X13.  The metadata stored with a document: every field the caller
    gave is stored as given, and the four fields of the store (type,
    origin, file name, hash) are filled in, where the caller gave none,
    with "text", "unknown", "unknown" and a fresh uuid. *)
Theorem enrich_lookup base_meta (fresh k : str) :
  NoDup (map fst base_meta) ->
  assoc k (enrich base_meta fresh)
  = match assoc k base_meta with
    | Some v => Some v
    | None => assoc k (Props.default_metadata fresh)
    end.
Proof.
  intros Hkeys. unfold enrich. rewrite (assoc_update _ _ _ Hkeys).
  destruct (assoc k base_meta) as [v|] eqn:Hgiven; [reflexivity|].
  unfold Props.default_metadata. cbn [assoc].
  destruct (str_eqb k METADATA_FIELD_TYPE) eqn:Htype;
    [apply str_eqb_eq in Htype; subst k; now rewrite Hgiven|].
  destruct (str_eqb k METADATA_FIELD_ORIGIN) eqn:Horigin;
    [apply str_eqb_eq in Horigin; subst k; now rewrite Hgiven|].
  destruct (str_eqb k METADATA_FIELD_FILENAME) eqn:Hfile;
    [apply str_eqb_eq in Hfile; subst k; now rewrite Hgiven|].
  destruct (str_eqb k METADATA_FIELD_HASH) eqn:Hhash;
    [apply str_eqb_eq in Hhash; subst k; now rewrite Hgiven|].
  reflexivity.
Qed.

Lemma enrich_all_spec metadatas documents : forall i self,
  enrich_all metadatas documents i self
  = (map (fun j => enrich (base_meta_at metadatas (i + j))
                     (uuid_source self (uuid_count self + j)))
       (seq 0 (length documents)),
     mkStore (client self) (_collections self) (uuid_source self)
       (uuid_count self + length documents)).
Proof.
  induction documents as [|doc rest IH]; intros i self; cbn [enrich_all length seq map].
  - rewrite Nat.add_0_r. now destruct self.
  - unfold uuid4. rewrite IH. cbn [client _collections uuid_source uuid_count].
    rewrite !Nat.add_0_r. f_equal.
    + f_equal. rewrite <- seq_shift, map_map. apply map_ext. intros j.
      now rewrite !Nat.add_succ_r.
    + f_equal. lia.
Qed.

Lemma zip_records_columns (used : list str) : forall documents embeddings (enriched : list (list (str * str))),
  length used = length documents ->
  length documents = length embeddings ->
  length documents = length enriched ->
  map rec_id (zip_records used documents embeddings enriched) = used
  /\ map rec_document (zip_records used documents embeddings enriched) = documents
  /\ map rec_embedding (zip_records used documents embeddings enriched) = embeddings
  /\ map rec_metadata (zip_records used documents embeddings enriched) = enriched.
Proof.
  induction used as [|u used IH]; intros [|d documents] [|e embeddings] [|m enriched] H1 H2 H3;
    cbn [length] in *; try discriminate; cbn [zip_records map]; [repeat split|].
  destruct (IH documents embeddings enriched) as (Hi & Hd & He & Hm); try lia.
  cbn [rec_id rec_document rec_embedding rec_metadata].
  now rewrite Hi, Hd, He, Hm.
Qed.

(** X14.  With as many embeddings as documents, and as many ids (given,
    or drawn from [uuid4] when none or an empty list is given):
    [add_documents] hands the database one record per document, the record
    at each position holding the id, the document and the embedding of that
    position and the enriched metadata of that position; it returns when
    the database accepts them, the collection then being what the database
    answered, and raises what the database raises. *)
Theorem add_documents_hands_over_aligned_records self name documents embeddings metadatas ids :
  length documents = length embeddings ->
  length (fst (ids_or_fresh ids documents self)) = length documents ->
  exists records,
    map rec_id records = fst (ids_or_fresh ids documents self)
    /\ map rec_document records = documents
    /\ map rec_embedding records = embeddings
    /\ map rec_metadata records
       = map (fun i => enrich (base_meta_at metadatas i)
                         (uuid_source self
                            (uuid_count (snd (ids_or_fresh ids documents self)) + i)))
           (seq 0 (length documents))
    /\ match collection_add (default [] (client self !! collection_value name)) records with
       | Ok stored =>
           exists self',
             add_documents collection_add self name documents embeddings metadatas ids
             = (Ok tt, self')
             /\ client self' !! collection_value name = Some stored
       | Raise e =>
           fst (add_documents collection_add self name documents embeddings metadatas ids)
           = Raise e
       end.
Proof.
  intros Hlen Hids. unfold add_documents.
  rewrite Hlen, Nat.eqb_refl. cbn [negb].
  assert (Hsame : client (snd (ids_or_fresh ids documents self)) = client self
                  /\ uuid_source (snd (ids_or_fresh ids documents self)) = uuid_source self).
  { unfold ids_or_fresh. destruct ids as [[|id0 more]|]; try (now split);
      rewrite fresh_ids_spec; now split. }
  destruct (ids_or_fresh ids documents self) as [used self1]. cbn [fst snd] in *.
  destruct Hsame as [Hclient Hsource].
  rewrite <- Hlen, Hids, Nat.eqb_refl. cbn [negb].
  rewrite enrich_all_spec, Hsource. cbn [Nat.add].
  set (enriched := map _ (seq 0 (length documents))).
  assert (Hmeta : length documents = length enriched)
    by (subst enriched; now rewrite length_map, length_seq).
  destruct (zip_records_columns used documents embeddings enriched Hids Hlen Hmeta)
    as (Hi & Hd & He & Hm).
  exists (zip_records used documents embeddings enriched).
  split; [exact Hi|]. split; [exact Hd|]. split; [exact He|]. split.
  - exact Hm.
  - unfold _load_or_create_collection.
    cbn [client _collections uuid_source uuid_count]. rewrite Hclient.
    destruct (bool_decide _);
      destruct (collection_add _ _) as [stored|e]; cbn [fst];
      try reflexivity; eexists; (split; [reflexivity|]); cbn [client]; apply lookup_insert_eq.
Qed.

(** X15.  A collection is loaded once: after a first
    [_load_or_create_collection] its name is among the cached handles, and
    a second call, like [get_collection] and [size] make, returns the same
    records and leaves the store exactly as it is. *)
Theorem load_or_create_collection_cached self name :
  let loaded := snd (_load_or_create_collection self name) in
  collection_value name ∈ _collections loaded
  /\ _load_or_create_collection loaded name
     = (fst (_load_or_create_collection self name), loaded)
  /\ size loaded name = (length (default [] (client self !! collection_value name)), loaded).
Proof.
  cbv zeta. unfold size, _load_or_create_collection.
  destruct (bool_decide (collection_value name ∈ _collections self)) eqn:Hin; cbn [fst snd].
  - apply bool_decide_eq_true in Hin. rewrite bool_decide_eq_true_2 by exact Hin.
    repeat split. exact Hin.
  - cbn [client _collections].
    assert (Hnow : collection_value name ∈ ({[collection_value name]} ∪ _collections self : gset str))
      by set_solver.
    rewrite bool_decide_eq_true_2 by exact Hnow.
    rewrite lookup_insert_eq. cbn [default]. repeat split. exact Hnow.
Qed.

End StoreBehaviour.

(* ===================================================================== *)
(** * What the chunker enumerates, keeps and drops                        *)
(* ===================================================================== *)

Section ChunkerBehaviour.
Import Py Constants SwaggerChunker.
Context {float : Type}.
Implicit Types (self other : SwaggerChunker float) (operation v : json)
  (method path : str) (endpoint : str * str * json) (chunk : Chunk float).

Lemma method_allowed_spec method :
  method_allowed method = true <-> In (lower method) allowed_methods.
Proof.
  unfold method_allowed. rewrite existsb_exists. split.
  - intros (known & Hknown & Heq). apply str_eqb_eq in Heq. now rewrite Heq.
  - intros Hin. exists (lower method). split; [exact Hin|apply str_eqb_refl].
Qed.

Lemma path_operations_In path (methods : list (str * json)) m p op :
  In (m, p, op) (path_operations path methods)
  <-> p = path /\ exists method, In (method, op) methods
                                 /\ In (lower method) allowed_methods /\ m = lower method.
Proof.
  unfold path_operations. rewrite in_flat_map. split.
  - intros ([method op'] & Hin & Hop).
    destruct (method_allowed method) eqn:Hallowed; [|contradiction].
    destruct Hop as [Heq|[]]. injection Heq as <- <- <-.
    split; [reflexivity|]. exists method. split; [exact Hin|].
    split; [now apply method_allowed_spec|reflexivity].
  - intros (-> & method & Hin & Hallowed & ->).
    exists (method, op). split; [exact Hin|].
    apply method_allowed_spec in Hallowed. rewrite Hallowed. now left.
Qed.

Lemma mapM_In_forward {A B : Type} (f : A -> result B) (l : list A) : forall bs a,
  mapM f l = Ok bs -> In a l -> exists b, In b bs /\ f a = Ok b.
Proof.
  induction l as [|a0 l IH]; intros bs a Hmap Hin; [contradiction|].
  cbn [mapM] in Hmap.
  destruct (f a0) as [b0|e] eqn:Hfa; cbn [bind] in Hmap; [|discriminate].
  destruct (mapM f l) as [bs0|e]; cbn [bind] in Hmap; [|discriminate].
  injection Hmap as <-. destruct Hin as [<-|Hin].
  - exists b0. split; [now left|exact Hfa].
  - destruct (IH bs0 a eq_refl Hin) as (b & Hb & Hfb). exists b. split; [now right|exact Hfb].
Qed.

(** X16.  The operations [_extract_endpoints] enumerates are exactly the
    entries of the path items whose key, in lower case, is one of get,
    post, put, delete and patch; each carries that key in lower case and
    the path of its path item.  Other keys of a path item (parameters,
    summary, options, head) yield nothing. *)
Theorem extract_endpoints_membership self (paths : list (str * json)) endpoints :
  get_default (swagger self) "paths" (JDict []) = Ok (JDict paths) ->
  _extract_endpoints self = Ok endpoints ->
  forall m p op,
    In (m, p, op) endpoints
    <-> exists methods method,
          In (p, JDict methods) paths /\ In (method, op) methods
          /\ In (lower method) allowed_methods /\ m = lower method.
Proof.
  intros Hpaths Hext m p op. unfold _extract_endpoints in Hext.
  rewrite Hpaths in Hext. cbn [bind items] in Hext.
  destruct (mapM _ paths) as [per_path|e] eqn:Hmap; cbn [bind] in Hext; [|discriminate].
  injection Hext as <-. rewrite in_concat. split.
  - intros (ops & Hops & Hin).
    destruct (mapM_In _ _ _ _ Hmap Hops) as ([path item] & Hitem & Hpath).
    destruct item as [| | | | | |methods]; try discriminate.
    cbn [items bind] in Hpath. injection Hpath as <-.
    apply path_operations_In in Hin as (-> & method & Hmethod & Hallowed & ->).
    now exists methods, method.
  - intros (methods & method & Hitem & Hmethod & Hallowed & ->).
    destruct (mapM_In_forward _ _ _ _ Hmap Hitem) as (ops & Hops & Hpath).
    cbn [items bind] in Hpath. injection Hpath as <-.
    exists (path_operations p methods). split; [exact Hops|].
    apply path_operations_In. split; [reflexivity|]. now exists method.
Qed.

Lemma extract_endpoints_same self other :
  Spec.same_document self other -> _extract_endpoints other = _extract_endpoints self.
Proof. intros (Hdoc & _). unfold _extract_endpoints. now rewrite Hdoc. Qed.

(** X17.  A chunker keeps what it extracted: [extract_chunks] returns the
    chunks the chunker already held followed by the chunks of this call,
    the chunker holds that whole list afterwards, and one more call
    returns it followed by the same new chunks once more. *)
Theorem extract_chunks_appends self self' (out : list (Chunk float)) :
  extract_chunks self = (Ok out, self') ->
  exists new,
    out = chunks self ++ new
    /\ chunks self' = out
    /\ fst (extract_chunks self') = Ok (out ++ new).
Proof.
  intros Hrun. unfold extract_chunks in Hrun.
  destruct (_extract_endpoints self) as [endpoints|e] eqn:Hends; [|discriminate].
  pose proof (extract_loop_spec endpoints self) as Hloop.
  destruct (mapM (operation_chunk self) endpoints) as [new|e] eqn:Hmap.
  - destruct Hloop as (self1 & Hl & Hchunks & Hsame). rewrite Hl in Hrun.
    injection Hrun as <- <-. exists new. split; [exact Hchunks|]. split; [reflexivity|].
    assert (Hends1 : _extract_endpoints self1 = Ok endpoints)
      by now rewrite (extract_endpoints_same self self1 Hsame).
    pose proof (extract_chunks_spec self1 endpoints Hends1) as Hspec.
    rewrite <- (mapM_ext (operation_chunk self) (operation_chunk self1)) in Hspec
      by (intros ep; now apply operation_chunk_same).
    now rewrite Hmap in Hspec.
  - destruct Hloop as (self1 & Hl). rewrite Hl in Hrun. discriminate.
Qed.

(** Where the loop stops when an operation raises. *)
Lemma extract_loop_raise endpoints : forall self self' e,
  extract_loop self endpoints = (Raise e, self') ->
  exists before endpoint after done,
    endpoints = before ++ endpoint :: after
    /\ mapM (operation_chunk self) before = Ok done
    /\ operation_chunk self endpoint = Raise e
    /\ chunks self' = chunks self ++ done
    /\ Spec.same_document self self'.
Proof.
  induction endpoints as [|first rest IH]; intros self self' e Hrun; cbn [extract_loop] in Hrun;
    [discriminate|].
  destruct (operation_chunk self first) as [chunk|e0] eqn:Hfirst.
  - set (self1 := mkChunker (swagger self) (source_file self) (components self)
                    (security_schemes self) (global_security self) (chunks self ++ [chunk])) in *.
    assert (Hsame : Spec.same_document self self1) by (repeat split).
    destruct (IH self1 self' e Hrun) as (before & endpoint & after & done & -> & Hdone & Hfail & Hchunks & Hs).
    exists (first :: before), endpoint, after, (chunk :: done).
    split; [reflexivity|]. split; [|split; [|split]].
    + cbn [mapM]. rewrite Hfirst. cbn [bind].
      rewrite (mapM_ext (operation_chunk self) (operation_chunk self1))
        by (intros ep; now apply operation_chunk_same).
      now rewrite Hdone.
    + now rewrite (operation_chunk_same self self1 endpoint Hsame).
    + rewrite Hchunks. subst self1. cbn [chunks]. now rewrite <- app_assoc.
    + destruct Hsame as (H1 & H2 & H3), Hs as (H4 & H5 & H6). repeat split; congruence.
  - injection Hrun as <- <-.
    exists [], first, rest, []. rewrite app_nil_r. repeat split. exact Hfirst.
Qed.

(** X18.  When [extract_chunks] raises, either the paths could not be
    enumerated and the chunker is as it was, or an operation raised while
    its fields were read: then the chunks of the operations before it stay
    appended to the chunks of the chunker, although nothing was returned. *)
Theorem extract_chunks_failure_keeps_partial self self' e :
  extract_chunks self = (Raise e, self') ->
  (_extract_endpoints self = Raise e /\ self' = self)
  \/ exists endpoints before endpoint after done,
       _extract_endpoints self = Ok endpoints
       /\ endpoints = before ++ endpoint :: after
       /\ mapM (operation_chunk self) before = Ok done
       /\ operation_chunk self endpoint = Raise e
       /\ chunks self' = chunks self ++ done.
Proof.
  intros Hrun. unfold extract_chunks in Hrun.
  destruct (_extract_endpoints self) as [endpoints|e0] eqn:Hends.
  - right. destruct (extract_loop self endpoints) as [[[]|e1] self1] eqn:Hloop; [discriminate|].
    injection Hrun as <- <-.
    destruct (extract_loop_raise endpoints self self1 e1 Hloop)
      as (before & endpoint & after & done & Hsplit & Hdone & Hfail & Hchunks & _).
    now exists endpoints, before, endpoint, after, done.
  - left. injection Hrun as <- <-. now split.
Qed.

(** X19.  [_extract_parameters] keeps one summary per parameter, in the
    order of the operation, and a summary has the five keys name, in,
    required, type and description, and no other: whatever else a
    parameter declares (an example, an enum, a format) is not in the
    text of the chunk. *)
Theorem extract_parameters_shape self operation (params : list json) v :
  get_default operation "parameters" (JList []) = Ok (JList params) ->
  _extract_parameters self operation = Ok v ->
  exists summaries,
    v = JList summaries
    /\ length summaries = length params
    /\ Forall (fun summary =>
                 exists d, summary = JDict d
                           /\ map fst d = ["name" : str; "in" : str; "required" : str;
                                           "type" : str; "description" : str])
              summaries.
Proof.
  intros Hparams Hrun. unfold _extract_parameters in Hrun.
  rewrite Hparams in Hrun. cbn [bind iter] in Hrun.
  destruct (mapM _ params) as [summaries|e] eqn:Hmap; cbn [bind] in Hrun; [|discriminate].
  injection Hrun as <-. exists summaries. split; [reflexivity|].
  pose proof (mapM_Forall2 _ _ _ Hmap) as Hall. split.
  - symmetry. eapply Forall2_length. exact Hall.
  - clear Hmap Hparams. induction Hall as [|param summary rest summaries' Hone _ IH]; [constructor|].
    constructor; [|exact IH].
    do 8 bind_ok Hone. injection Hone as <-. eexists. split; reflexivity.
Qed.

Lemma response_media_keys self status_code resp content : forall output d,
  response_media self status_code resp content output = Ok d ->
  forall k, has_key k d
            = has_key k output
              || (match content with [] => false | _ => true end && str_eqb k status_code).
Proof.
  induction content as [|[media_type media_obj] rest IH]; intros output d Hrun k;
    cbn [response_media] in Hrun.
  - injection Hrun as <-. now rewrite orb_false_r.
  - do 4 bind_ok Hrun. rewrite (IH _ _ Hrun k), has_key_dict_set. cbn [andb].
    destruct rest; cbn [andb]; destruct (str_eqb k status_code), (has_key k output); reflexivity.
Qed.

Lemma responses_loop_keys self (responses : list (str * json)) : forall output d,
  responses_loop self responses output = Ok d ->
  forall k, has_key k d = true
            <-> has_key k output = true
                \/ exists resp media rest,
                     In (k, resp) responses
                     /\ get_default resp "content" (JDict []) = Ok (JDict (media :: rest)).
Proof.
  induction responses as [|[status_code resp] others IH]; intros output d Hrun k;
    cbn [responses_loop] in Hrun.
  - injection Hrun as <-. split; [now left|]. intros [Hk|(resp & media & rest & [] & _)]. exact Hk.
  - destruct (get_default resp "content" (JDict [])) as [content|e] eqn:Hcontent;
      cbn [bind] in Hrun; [|discriminate].
    destruct content as [| | | | | |entries]; try discriminate. cbn [items bind] in Hrun.
    destruct (response_media self status_code resp entries output) as [output1|e] eqn:Hmedia;
      cbn [bind] in Hrun; [|discriminate].
    rewrite (IH _ _ Hrun k), (response_media_keys _ _ _ _ _ _ Hmedia k). split.
    + intros [Hk|(resp' & media & rest & Hin & Hc)].
      * apply orb_true_iff in Hk as [Hk|Hk]; [now left|].
        apply andb_true_iff in Hk as [Hsome Hk]. apply str_eqb_eq in Hk. subst k.
        destruct entries as [|media rest]; [discriminate|].
        right. exists resp, media, rest. split; [now left|exact Hcontent].
      * right. exists resp', media, rest. split; [now right|exact Hc].
    + intros [Hk|(resp' & media & rest & [Heq|Hin] & Hc)].
      * left. now rewrite Hk.
      * injection Heq as <- <-. left. rewrite Hcontent in Hc. injection Hc as ->.
        rewrite str_eqb_refl. cbn [andb]. apply orb_true_r.
      * right. now exists resp', media, rest.
Qed.

(** X20.  The responses in the text of a chunk are those that declare a
    content: a status code is a key of what [_extract_responses] returns
    exactly when one of its responses has at least one media type.  A
    response without content (a 204, a bare description) is dropped. *)
Theorem extract_responses_keys self operation (responses : list (str * json)) out :
  get_default operation "responses" (JDict []) = Ok (JDict responses) ->
  _extract_responses self operation = Ok out ->
  exists d,
    out = JDict d
    /\ forall status_code,
         has_key status_code d = true
         <-> exists resp media rest,
               In (status_code, resp) responses
               /\ get_default resp "content" (JDict []) = Ok (JDict (media :: rest)).
Proof.
  intros Hresponses Hrun. unfold _extract_responses in Hrun.
  rewrite Hresponses in Hrun. cbn [bind items] in Hrun.
  destruct (responses_loop self responses []) as [d|e] eqn:Hloop; cbn [bind] in Hrun;
    [|discriminate].
  injection Hrun as <-. exists d. split; [reflexivity|]. intros status_code.
  rewrite (responses_loop_keys _ _ _ _ Hloop status_code). split.
  - intros [Hk|Hk]; [discriminate|exact Hk].
  - intros Hk. now right.
Qed.

End ChunkerBehaviour.

(* ===================================================================== *)
(** * Failure, upsert and query of the vector store                       *)
(* ===================================================================== *)

Section StoreOperations.
Import Py Constants VectorStore.
Context {float : Type}.
Variable collection_add :
  list (record float) -> list (record float) -> result (list (record float)).
Variable embedding_function : list str -> result (list (list float)).
Variable collection_upsert :
  list (record float) -> list str -> list str -> list (list float) -> list (list (str * str))
  -> result (list (record float)).
Variable collection_query :
  list (record float) -> list str -> Z -> result (query_result float).
Implicit Types (self : VectorStore float) (name : VectorStoreCollections)
  (documents query_texts : list str) (embeddings : list (list float))
  (metadatas : option (list (list (str * str)))) (ids : option (list str))
  (results : query_result float).

Lemma ids_or_fresh_client ids documents self :
  client (snd (ids_or_fresh ids documents self)) = client self.
Proof.
  unfold ids_or_fresh. destruct ids as [[|id0 more]|]; try reflexivity;
    now rewrite fresh_ids_spec.
Qed.

Lemma enrich_all_client metadatas documents i self :
  client (snd (enrich_all metadatas documents i self)) = client self.
Proof. now rewrite enrich_all_spec. Qed.

(** Loading a collection creates it at most: no record appears or goes. *)
Lemma load_records_kept self name (n : str) :
  Props.records_of (snd (_load_or_create_collection self name)) n = Props.records_of self n.
Proof.
  unfold Props.records_of, _load_or_create_collection.
  destruct (bool_decide _); cbn [snd client]; [reflexivity|].
  destruct (decide (collection_value name = n)) as [<-|Hne].
  - rewrite lookup_insert_eq. reflexivity.
  - now rewrite lookup_insert_ne.
Qed.

(** X21.  When [add_documents] raises, no collection has gained or lost
    a record: the two length checks come before anything is written, and
    drawing the ids, enriching the metadata and loading the collection
    write no record (the collection may have been created, empty).  A call
    of the database that raises is taken to have written nothing. *)
Theorem add_documents_failure_writes_nothing self self' name documents embeddings metadatas ids e :
  add_documents collection_add self name documents embeddings metadatas ids = (Raise e, self') ->
  forall n, Props.records_of self' n = Props.records_of self n.
Proof.
  intros Hrun n. unfold add_documents in Hrun.
  destruct (negb (length documents =? length embeddings)%nat); [now injection Hrun as _ <-|].
  pose proof (ids_or_fresh_client ids documents self) as H1.
  destruct (ids_or_fresh ids documents self) as [used self1]. cbn [snd] in H1.
  destruct (negb (length used =? length documents)%nat).
  { injection Hrun as _ <-. unfold Props.records_of. now rewrite H1. }
  pose proof (enrich_all_client metadatas documents 0 self1) as H2.
  destruct (enrich_all metadatas documents 0 self1) as [enriched self2]. cbn [snd] in H2.
  pose proof (load_records_kept self2 name n) as H3.
  destruct (_load_or_create_collection self2 name) as [collection self3]. cbn [snd] in H3.
  destruct (collection_add collection _) as [stored|e']; [discriminate|].
  injection Hrun as _ <-. rewrite H3. unfold Props.records_of. now rewrite H2, H1.
Qed.

(** X22.  [upsert_embeddings] looks at its arguments before it computes
    anything.  Without documents it returns at once and leaves the store
    as it is, whatever ids and metadata come with them; with documents and
    a list of ids of another length it raises the ValueError of the
    contract, whatever the embedding function and the database would do,
    and leaves the store as it is. *)
Theorem upsert_embeddings_checks_first self name metadatas :
  (forall ids,
     upsert_embeddings embedding_function collection_upsert self name [] metadatas ids
     = (Ok tt, self))
  /\ (forall (doc : str) documents (id0 : str) (more : list str),
        length (id0 :: more) <> length (doc :: documents) ->
        upsert_embeddings embedding_function collection_upsert self name (doc :: documents)
          metadatas (Some (id0 :: more))
        = (Raise (ValueError "Mismatch: documents and IDs count."), self)).
Proof.
  split; [reflexivity|].
  intros doc documents id0 more Hlen. unfold upsert_embeddings, ids_or_fresh.
  destruct (Nat.eqb_spec (length (id0 :: more)) (length (doc :: documents))) as [Heq|Hne];
    [contradiction|reflexivity].
Qed.

(** X23.  When [upsert_embeddings] raises, no collection has gained or
    lost a record: the check of the ids and the embedding of the documents
    come before the collection is touched, so a failure of the embedding
    function leaves the database alone.  A call of the database that
    raises is taken to have written nothing. *)
Theorem upsert_embeddings_failure_writes_nothing self self' name documents metadatas ids e :
  upsert_embeddings embedding_function collection_upsert self name documents metadatas ids
  = (Raise e, self') ->
  forall n, Props.records_of self' n = Props.records_of self n.
Proof.
  intros Hrun n. unfold upsert_embeddings in Hrun.
  destruct documents as [|doc documents]; [discriminate|].
  pose proof (ids_or_fresh_client ids (doc :: documents) self) as H1.
  destruct (ids_or_fresh ids (doc :: documents) self) as [used self1]. cbn [snd] in H1.
  destruct (negb (length used =? length (doc :: documents))%nat).
  { injection Hrun as _ <-. unfold Props.records_of. now rewrite H1. }
  pose proof (enrich_all_client metadatas (doc :: documents) 0 self1) as H2.
  destruct (enrich_all metadatas (doc :: documents) 0 self1) as [enriched self2]. cbn [snd] in H2.
  destruct (embedding_function (doc :: documents)) as [embeddings|e'].
  - pose proof (load_records_kept self2 name n) as H3.
    destruct (_load_or_create_collection self2 name) as [collection self3]. cbn [snd] in H3.
    destruct (collection_upsert collection _ _ _ _) as [stored|e'']; [discriminate|].
    injection Hrun as _ <-. rewrite H3. unfold Props.records_of. now rewrite H2, H1.
  - injection Hrun as _ <-. unfold Props.records_of. now rewrite H2, H1.
Qed.

Lemma Forall2_nth_error {A B : Type} (R : A -> B -> Prop) (l : list A) (l' : list B) :
  Forall2 R l l' ->
  forall i x, nth_error l i = Some x -> exists y, nth_error l' i = Some y /\ R x y.
Proof.
  induction 1 as [|a b l l' Hab _ IH]; intros [|i] x Hx; cbn [nth_error] in *; try discriminate.
  - injection Hx as <-. now exists b.
  - now apply IH.
Qed.

Lemma list_getitem_Some {A : Type} (l : list A) (i : nat) (x : A) :
  nth_error l i = Some x -> list_getitem l i = Ok x.
Proof. unfold list_getitem. now intros ->. Qed.

Lemma nth_error_in_range {A : Type} (l : list A) (i : nat) :
  i < length l -> exists x, nth_error l i = Some x.
Proof.
  intros Hi. destruct (nth_error l i) as [x|] eqn:Hx; [now exists x|].
  apply nth_error_None in Hx. lia.
Qed.

Lemma same_entries {A : Type} (l l' : list A) :
  length l = length l' ->
  (forall j x, nth_error l j = Some x -> nth_error l' j = Some x) ->
  l = l'.
Proof.
  revert l'. induction l as [|a l IH]; intros [|b l'] Hlen Hsame; cbn [length] in Hlen;
    try discriminate; [reflexivity|].
  f_equal.
  - specialize (Hsame 0 a eq_refl). now injection Hsame as ->.
  - apply IH; [lia|]. intros j x Hj. exact (Hsame (S j) x Hj).
Qed.

Lemma mapM_seq_entries {B : Type} (f : nat -> result B) (n : nat) (bs : list B) :
  mapM f (seq 0 n) = Ok bs ->
  length bs = n /\ forall j b, nth_error bs j = Some b -> f j = Ok b.
Proof.
  intros Hmap. pose proof (mapM_Forall2 _ _ _ Hmap) as Hall.
  assert (Hlen : length bs = n)
    by (rewrite <- (Forall2_length _ _ _ Hall); apply length_seq).
  split; [exact Hlen|]. intros j b Hj.
  assert (Hrange : j < n) by (rewrite <- Hlen; apply nth_error_Some; congruence).
  assert (Hseq : nth_error (seq 0 n) j = Some j)
    by (rewrite nth_error_seq; destruct (Nat.ltb_spec j n); [reflexivity|lia]).
  destruct (Forall2_nth_error _ _ _ Hall j j Hseq) as (b' & Hb' & Hf).
  congruence.
Qed.

(** The matches of one query: the rows of the four columns, entry by entry. *)
Lemma matches_at_spec results i (ids_i documents_i : list str)
  (metadatas_i : list (list (str * str))) (distances_i : list float) :
  nth_error (q_ids results) i = Some ids_i ->
  nth_error (q_documents results) i = Some documents_i ->
  nth_error (q_metadatas results) i = Some metadatas_i ->
  nth_error (q_distances results) i = Some distances_i ->
  length ids_i = length documents_i ->
  length metadatas_i = length documents_i ->
  length distances_i = length documents_i ->
  exists matches,
    matches_at results i = Ok matches
    /\ map similar_id matches = ids_i
    /\ map similar_document matches = documents_i
    /\ map similar_metadata matches = metadatas_i
    /\ map similar_distance matches = distances_i.
Proof.
  intros Hids Hdocs Hmetas Hdists Hl1 Hl2 Hl3. unfold matches_at.
  rewrite (list_getitem_Some _ _ _ Hids), (list_getitem_Some _ _ _ Hdocs),
    (list_getitem_Some _ _ _ Hmetas), (list_getitem_Some _ _ _ Hdists).
  cbn [bind].
  set (f := fun j : nat => _).
  assert (Htotal : exists matches, mapM f (seq 0 (length documents_i)) = Ok matches).
  { apply mapM_total. intros j Hj. apply in_seq in Hj. subst f. cbv beta.
    destruct (nth_error_in_range ids_i j) as (a & Ha); [lia|].
    destruct (nth_error_in_range documents_i j) as (b & Hb); [lia|].
    destruct (nth_error_in_range metadatas_i j) as (c & Hc); [lia|].
    destruct (nth_error_in_range distances_i j) as (d & Hd); [lia|].
    now rewrite (list_getitem_Some _ _ _ Ha), (list_getitem_Some _ _ _ Hb),
      (list_getitem_Some _ _ _ Hc), (list_getitem_Some _ _ _ Hd). }
  destruct Htotal as (matches & Hmap). exists matches. split; [exact Hmap|].
  destruct (mapM_seq_entries _ _ _ Hmap) as [Hlen Hentries].
  assert (Hentry : forall j m, nth_error matches j = Some m ->
            nth_error ids_i j = Some (similar_id m)
            /\ nth_error documents_i j = Some (similar_document m)
            /\ nth_error metadatas_i j = Some (similar_metadata m)
            /\ nth_error distances_i j = Some (similar_distance m)).
  { intros j m Hm. pose proof (Hentries j m Hm) as Hf. subst f. cbv beta in Hf.
    unfold list_getitem in Hf.
    destruct (nth_error ids_i j) as [a|]; cbn [bind] in Hf; [|discriminate].
    destruct (nth_error documents_i j) as [b|]; cbn [bind] in Hf; [|discriminate].
    destruct (nth_error metadatas_i j) as [c|]; cbn [bind] in Hf; [|discriminate].
    destruct (nth_error distances_i j) as [d|]; cbn [bind] in Hf; [|discriminate].
    injection Hf as <-. repeat split. }
  repeat split; apply same_entries; rewrite ?length_map; try lia;
    intros j x Hx; rewrite nth_error_map in Hx;
    destruct (nth_error matches j) as [m|] eqn:Hm; try discriminate;
    cbn [option_map] in Hx; injection Hx as <-;
    now destruct (Hentry j m Hm) as (H1 & H2 & H3 & H4).
Qed.

Lemma query_loop_spec results : forall query_texts i,
  (forall k, k < length query_texts ->
     exists ids_i documents_i metadatas_i distances_i,
       nth_error (q_ids results) (i + k) = Some ids_i
       /\ nth_error (q_documents results) (i + k) = Some documents_i
       /\ nth_error (q_metadatas results) (i + k) = Some metadatas_i
       /\ nth_error (q_distances results) (i + k) = Some distances_i
       /\ length ids_i = length documents_i
       /\ length metadatas_i = length documents_i
       /\ length distances_i = length documents_i) ->
  exists out,
    query_loop results query_texts i = Ok out
    /\ map answer_query out = query_texts
    /\ forall k a, nth_error out k = Some a ->
         nth_error (q_ids results) (i + k) = Some (map similar_id (answer_matches a))
         /\ nth_error (q_documents results) (i + k)
            = Some (map similar_document (answer_matches a))
         /\ nth_error (q_metadatas results) (i + k)
            = Some (map similar_metadata (answer_matches a))
         /\ nth_error (q_distances results) (i + k)
            = Some (map similar_distance (answer_matches a)).
Proof.
  induction query_texts as [|query rest IH]; intros i Hrows; cbn [query_loop].
  - exists []. split; [reflexivity|]. split; [reflexivity|]. intros [|k] a Ha; discriminate.
  - destruct (Hrows 0) as (ids_i & documents_i & metadatas_i & distances_i
                           & Hi & Hd & Hm & Hs & Hl1 & Hl2 & Hl3); [cbn [length]; lia|].
    rewrite Nat.add_0_r in Hi, Hd, Hm, Hs.
    destruct (matches_at_spec results i _ _ _ _ Hi Hd Hm Hs Hl1 Hl2 Hl3)
      as (matches & -> & Mi & Md & Mm & Ms).
    cbn [bind].
    destruct (IH (S i)) as (out & -> & Hqueries & Hrest).
    { intros k Hk. destruct (Hrows (S k)) as (a & b & c & d & H); [cbn [length]; lia|].
      exists a, b, c, d. now rewrite Nat.add_succ_comm. }
    cbn [bind]. eexists. split; [reflexivity|]. split.
    + cbn [map answer_query]. now rewrite Hqueries.
    + intros [|k] a Ha; cbn [nth_error] in Ha.
      * injection Ha as <-. cbn [answer_matches]. rewrite Nat.add_0_r.
        now rewrite Mi, Md, Mm, Ms.
      * rewrite <- Nat.add_succ_comm. now apply Hrest.
Qed.

(** X24.  When the database answers a query with aligned columns,
    [query_similar] returns one entry per query text, in the order of the
    query texts, and the matches of the entry at a position are the rows of
    the four columns at that position, put together entry by entry: nothing
    is dropped, added or reordered.  No collection gains or loses a record. *)
Theorem query_similar_transposes self name query_texts (n_results : Z) results :
  collection_query (Props.records_of self (collection_value name)) query_texts n_results
  = Ok results ->
  Props.aligned results (length query_texts) ->
  exists out self',
    query_similar collection_query self name query_texts n_results = (Ok out, self')
    /\ map answer_query out = query_texts
    /\ map (fun a => map similar_id (answer_matches a)) out = q_ids results
    /\ map (fun a => map similar_document (answer_matches a)) out = q_documents results
    /\ map (fun a => map similar_metadata (answer_matches a)) out = q_metadatas results
    /\ map (fun a => map similar_distance (answer_matches a)) out = q_distances results
    /\ forall n, Props.records_of self' n = Props.records_of self n.
Proof.
  intros Hquery (Hrows & Hids & Hmetas & Hdists). unfold query_similar.
  pose proof (fun n => load_records_kept self name n) as Hkept.
  assert (Hloaded : fst (_load_or_create_collection self name)
                    = Props.records_of self (collection_value name))
    by (unfold _load_or_create_collection, Props.records_of; now destruct (bool_decide _)).
  destruct (_load_or_create_collection self name) as [collection self1]. cbn [fst snd] in *.
  subst collection. rewrite Hquery.
  destruct (query_loop_spec results query_texts 0) as (out & Hout & Hqueries & Hentries).
  { intros k Hk. cbn [Nat.add].
    destruct (nth_error_in_range (q_documents results) k) as (documents_i & Hd); [lia|].
    destruct (Forall2_nth_error _ _ _ Hids k _ Hd) as (ids_i & Hi & Hl1).
    destruct (Forall2_nth_error _ _ _ Hmetas k _ Hd) as (metadatas_i & Hm & Hl2).
    destruct (Forall2_nth_error _ _ _ Hdists k _ Hd) as (distances_i & Hs & Hl3).
    now exists ids_i, documents_i, metadatas_i, distances_i. }
  exists out, self1. split; [now rewrite Hout|]. split; [exact Hqueries|].
  assert (Hlen : length out = length query_texts)
    by (rewrite <- Hqueries; now rewrite length_map).
  pose proof (Forall2_length _ _ _ Hids) as L1.
  pose proof (Forall2_length _ _ _ Hmetas) as L2.
  pose proof (Forall2_length _ _ _ Hdists) as L3.
  repeat split; try exact Hkept;
    apply same_entries; rewrite ?length_map; try lia;
    intros k x Hx; rewrite nth_error_map in Hx;
    destruct (nth_error out k) as [a|] eqn:Ha; try discriminate;
    cbn [option_map] in Hx; injection Hx as <-;
    now destruct (Hentries k a Ha) as (H1 & H2 & H3 & H4).
Qed.

End StoreOperations.

(* ===================================================================== *)
(** * The schema parser and the previews of the prompt builder            *)
(* ===================================================================== *)

Section SchemaProperties.
Import Py SchemaParser.
Implicit Types (schema required : json) (properties : list (str * json))
  (required_props optional_props : list json).

Lemma field_info_name prop_name prop_schema info :
  field_info prop_name prop_schema = Ok info -> getitem info "name" = Ok (JStr prop_name).
Proof.
  unfold field_info. intros Hinfo. do 8 bind_ok Hinfo. now injection Hinfo as <-.
Qed.

Lemma parse_loop_spec (listed_fields : list str) properties :
  forall required_props optional_props required_out optional_out,
    parse_loop listed_fields properties required_props optional_props
    = Ok (required_out, optional_out) ->
    exists required_new optional_new,
      required_out = required_props ++ required_new
      /\ optional_out = optional_props ++ optional_new
      /\ Forall2 (fun property info => field_info (fst property) (snd property) = Ok info)
           (List.filter (Props.listed listed_fields) properties) required_new
      /\ Forall2 (fun property info => field_info (fst property) (snd property) = Ok info)
           (List.filter (fun property => negb (Props.listed listed_fields property)) properties)
           optional_new.
Proof.
  induction properties as [|[prop_name prop_schema] rest IH];
    intros required_props optional_props required_out optional_out Hrun;
    cbn [parse_loop] in Hrun.
  - injection Hrun as <- <-. exists [], []. rewrite !app_nil_r. repeat split; constructor.
  - destruct (field_info prop_name prop_schema) as [info|e] eqn:Hinfo; cbn [bind] in Hrun;
      [|discriminate].
    cbn [List.filter].
    assert (Hlisted : Props.listed listed_fields (prop_name, prop_schema)
                      = existsb (str_eqb prop_name) listed_fields) by reflexivity.
    rewrite !Hlisted.
    destruct (existsb (str_eqb prop_name) listed_fields); cbn [negb].
    + destruct (IH _ _ _ _ Hrun) as (rn & on & -> & -> & Hr & Ho).
      exists (info :: rn), on. rewrite <- app_assoc. repeat split; try assumption.
      now constructor.
    + destruct (IH _ _ _ _ Hrun) as (rn & on & -> & -> & Hr & Ho).
      exists rn, (info :: on). rewrite <- app_assoc. repeat split; try assumption.
      now constructor.
Qed.

(** X25.  [parse_schema_properties] files every property once: the
    required list holds the field infos of the properties whose name is
    among [required_fields], the optional list those of all the others,
    both in the order of the schema; each info carries the name of its
    property.  A name of [required_fields] that is no property of the
    schema is passed over in silence. *)
Theorem parse_schema_properties_partition schema properties
  (required_fields : option (list str)) required_props optional_props :
  get_default schema "properties" (JDict []) = Ok (JDict properties) ->
  parse_schema_properties schema required_fields = Ok (required_props, optional_props) ->
  Forall2 (fun property info =>
             field_info (fst property) (snd property) = Ok info
             /\ getitem info "name" = Ok (JStr (fst property)))
    (List.filter (Props.listed (default [] required_fields)) properties) required_props
  /\ Forall2 (fun property info =>
                field_info (fst property) (snd property) = Ok info
                /\ getitem info "name" = Ok (JStr (fst property)))
       (List.filter (fun property => negb (Props.listed (default [] required_fields) property))
          properties)
       optional_props.
Proof.
  intros Hprops Hrun. unfold parse_schema_properties in Hrun.
  rewrite Hprops in Hrun. cbn [bind items] in Hrun.
  assert (Hfields : match required_fields with Some (f :: fs) => f :: fs | _ => [] end
                    = default [] required_fields)
    by (now destruct required_fields as [[|f fs]|]).
  rewrite Hfields in Hrun.
  destruct (parse_loop_spec _ _ _ _ _ _ Hrun) as (rn & on & -> & -> & Hr & Ho).
  cbn [app]. split.
  - eapply Forall2_impl; [exact Hr|]. intros property info Hinfo.
    split; [exact Hinfo|]. now apply (field_info_name _ (snd property)).
  - eapply Forall2_impl; [exact Ho|]. intros property info Hinfo.
    split; [exact Hinfo|]. now apply (field_info_name _ (snd property)).
Qed.

Lemma contains_names (field_name : str) (names : list str) :
  contains field_name (JList (map JStr names)) = Ok (existsb (str_eqb field_name) names).
Proof.
  cbn [contains]. f_equal. induction names as [|n names IH]; cbn [map existsb]; [reflexivity|].
  now rewrite IH.
Qed.

Lemma field_info_total prop_name (d : list (str * json)) :
  exists info, field_info prop_name (JDict d) = Ok info.
Proof. unfold field_info. cbn [get get_default contains bind]. eexists. reflexivity. Qed.

Lemma flatten_loop_agrees (names : list str) properties :
  forall parsed final required_props optional_props,
    flatten_loop (JList (map JStr names)) properties parsed = Ok final ->
    exists required_new optional_new infos_required infos_optional,
      required_fields final = required_fields parsed ++ required_new
      /\ optional_fields final = optional_fields parsed ++ optional_new
      /\ parse_loop names properties required_props optional_props
         = Ok (required_props ++ infos_required, optional_props ++ infos_optional)
      /\ Forall2 (fun name info => getitem info "name" = Ok (JStr name))
           required_new infos_required
      /\ Forall2 (fun name info => getitem info "name" = Ok (JStr name))
           optional_new infos_optional.
Proof.
  induction properties as [|[field_name field_schema] rest IH];
    intros parsed final required_props optional_props Hrun; cbn [flatten_loop] in Hrun.
  - injection Hrun as <-. exists [], [], [], []. rewrite !app_nil_r. repeat split; constructor.
  - destruct field_schema as [| | | | | |d]; try discriminate.
    destruct (field_info_total field_name d) as (info & Hinfo).
    cbn [get_default bind] in Hrun. rewrite contains_names in Hrun. cbn [bind] in Hrun.
    cbn [parse_loop]. rewrite Hinfo. cbn [bind].
    destruct (contains "enum" (JDict d)) as [has_enum|e]; cbn [bind] in Hrun; [|discriminate].
    match type of Hrun with
    | context [bind ?r _] => destruct r as [enums'|e]; cbn [bind] in Hrun; [|discriminate]
    end.
    destruct (existsb (str_eqb field_name) names).
    + destruct (IH _ _ (required_props ++ [info]) optional_props Hrun)
        as (rn & on & ir & io & Hr & Ho & Hparse & Hnr & Hno).
      cbn [required_fields optional_fields] in Hr, Ho.
      exists (field_name :: rn), on, (info :: ir), io.
      rewrite Hr, Ho, Hparse, <- !app_assoc. repeat split; try assumption.
      constructor; [|exact Hnr]. now apply (field_info_name _ (JDict d)).
    + destruct (IH _ _ required_props (optional_props ++ [info]) Hrun)
        as (rn & on & ir & io & Hr & Ho & Hparse & Hnr & Hno).
      cbn [required_fields optional_fields] in Hr, Ho.
      exists rn, (field_name :: on), ir, (info :: io).
      rewrite Hr, Ho, Hparse, <- !app_assoc. repeat split; try assumption.
      constructor; [|exact Hno]. now apply (field_info_name _ (JDict d)).
Qed.

(** X26.  The two functions of the parser agree.  For a schema whose
    [required] is a list of names, whenever [flatten_schema_to_summary]
    returns, [parse_schema_properties] with those names returns too, and the
    required and optional names of the summary are, in the same order, the
    names of the required and optional field infos. *)
Theorem flatten_agrees_with_parse schema (names : list str) out :
  get_default schema "required" (JList []) = Ok (JList (map JStr names)) ->
  flatten_schema_to_summary schema = Ok out ->
  exists parsed required_props optional_props,
    out = summary_dict parsed
    /\ parse_schema_properties schema (Some names) = Ok (required_props, optional_props)
    /\ Forall2 (fun name info => getitem info "name" = Ok (JStr name))
         (required_fields parsed) required_props
    /\ Forall2 (fun name info => getitem info "name" = Ok (JStr name))
         (optional_fields parsed) optional_props.
Proof.
  intros Hrequired Hrun. unfold flatten_schema_to_summary in Hrun.
  rewrite Hrequired in Hrun. cbn [bind] in Hrun.
  unfold parse_schema_properties.
  destruct (get_default schema "properties" (JDict [])) as [props|e]; cbn [bind] in Hrun |- *;
    [|discriminate].
  destruct (items props) as [properties|e]; cbn [bind] in Hrun |- *; [|discriminate].
  destruct (flatten_loop _ properties _) as [parsed|e] eqn:Hloop; cbn [bind] in Hrun;
    [|discriminate].
  injection Hrun as <-.
  destruct (flatten_loop_agrees names properties _ _ [] [] Hloop)
    as (rn & on & ir & io & Hr & Ho & Hparse & Hnr & Hno).
  cbn [required_fields optional_fields app] in Hr, Ho, Hparse.
  exists parsed, ir, io. split; [reflexivity|]. rewrite Hr, Ho. split; [|now split].
  destruct names as [|n names]; [|exact Hparse].
  exact Hparse.
Qed.

End SchemaProperties.

Section PromptProperties.
Import Py PromptBuilder.

Lemma drop_while_length (p : ascii -> bool) (s : str) : length (drop_while p s) <= length s.
Proof.
  induction s as [|c s IH]; cbn [drop_while length]; [lia|].
  destruct (p c); cbn [length]; lia.
Qed.

Lemma strip_length (s : str) : length (strip s) <= length s.
Proof.
  unfold strip, rstrip_by, lstrip_by. rewrite length_rev.
  etransitivity; [apply drop_while_length|]. rewrite length_rev. apply drop_while_length.
Qed.

(** X27.  [available_keys] lists every template under its key, in the
    order of the templates, with a preview of at most 83 characters (80 of
    the template and the three dots) that holds no line feed. *)
Theorem available_keys_previews (templates : list (str * str)) :
  map fst (available_keys templates) = map fst templates
  /\ Forall (fun entry => length (snd entry) <= 83 /\ ~ In nl (snd entry))
       (available_keys templates).
Proof.
  unfold available_keys. split.
  - rewrite map_map. now apply map_ext.
  - apply List.Forall_forall. intros entry Hin.
    apply in_map_iff in Hin as ([k v] & <- & _). cbn [fst snd]. unfold preview. split.
    + rewrite length_app. unfold replace. rewrite length_map.
      pose proof (strip_length (firstn 80 v)) as Hstrip.
      pose proof (length_firstn 80 v) as Hfirst. cbn [length]. 
      change (length (list_ascii_of_string "...")) with 3. lia.
    + intros Hnl. apply in_app_or in Hnl as [Hnl|Hnl].
      * unfold replace in Hnl. apply in_map_iff in Hnl as (c & Hc & _).
        destruct (Ascii.eqb c nl) eqn:Heq; [discriminate|].
        apply Ascii.eqb_neq in Heq. now apply Heq.
      * cbn in Hnl. intuition discriminate.
Qed.

End PromptProperties.

(* ===================================================================== *)
(** * From the chunker to the engine                                      *)
(* ===================================================================== *)

Section Pipeline.
Import Py Constants SwaggerChunker EmbeddingEngine.
Context {float : Type} `{!EmbeddingCache.IndexCodec float}.
Implicit Types (self : EmbeddingEngine float) (chunk : Chunk float)
  (chunks : list (Chunk float)).

Lemma extracted_have_required_keys doc file chunks :
  Spec.extract doc file = Ok chunks ->
  Forall (fun chunk => has_required_keys chunk = true) chunks.
Proof.
  intros Hrun. unfold Spec.extract in Hrun.
  destruct (init doc file) as [chunker|e] eqn:Hinit; cbn [bind] in Hrun; [|discriminate].
  destruct (_extract_endpoints chunker) as [endpoints|e] eqn:Hends;
    [|unfold extract_chunks in Hrun; rewrite Hends in Hrun; discriminate].
  pose proof (extract_chunks_spec chunker endpoints Hends) as Hspec.
  rewrite (init_fresh doc file chunker Hinit) in Hspec. cbn [app] in Hspec.
  destruct (mapM (operation_chunk chunker) endpoints) as [new|e] eqn:Hmap;
    rewrite Hrun in Hspec; [|discriminate].
  injection Hspec as ->.
  destruct (chunks_of_endpoints chunker endpoints new Hends Hmap) as [Hdesc Hids].
  clear Hmap Hends Hrun. induction Hdesc as [|endpoint chunk rest new' Hone _ IH]; [constructor|].
  inversion Hids as [|? ? (text & Htext & Hid) Hrest]; subst.
  constructor; [|now apply IH].
  destruct endpoint as [[method path] operation]. destruct Hone as [Hty _].
  unfold has_required_keys. now rewrite Hid, Hty, Htext.
Qed.

Lemma validate_In chunks : forall validated,
  In validated (validate chunks) ->
  exists chunk,
    In chunk chunks
    /\ chunk_id validated = chunk_id chunk
    /\ chunk_text validated = chunk_text chunk
    /\ chunk_metadata validated = chunk_metadata chunk.
Proof.
  induction chunks as [|first rest IH]; intros validated Hin; cbn [validate] in Hin;
    [contradiction|].
  assert (Hrest : In validated (validate rest) ->
            exists chunk, In chunk (first :: rest)
                          /\ chunk_id validated = chunk_id chunk
                          /\ chunk_text validated = chunk_text chunk
                          /\ chunk_metadata validated = chunk_metadata chunk).
  { intros H0. destruct (IH validated H0) as (chunk & Hc & Hsame).
    exists chunk. split; [now right|exact Hsame]. }
  destruct (has_required_keys first); cbn [negb] in Hin; [|now apply Hrest].
  destruct (chunk_type first) as [ty|]; [|now apply Hrest].
  destruct Hin as [<-|Hin]; [|now apply Hrest].
  exists first. split; [now left|]. now destruct (known_type ty).
Qed.

(** X28.  No operation is lost between the chunker and the engine.  The
    chunks extracted from a document all pass the validation of
    [embed_texts]: when the index can be saved and the embedding service
    answers, as many chunks come back as were extracted, and each has the
    id, the text and the metadata of an extracted chunk, and an
    embedding. *)
Theorem extracted_chunks_are_embedded self doc file chunks :
  Spec.extract doc file = Ok chunks ->
  Spec.writable (cache self) ->
  Spec.answers_every_text (model self) ->
  exists out self',
    embed_texts self chunks = (Ok out, self')
    /\ length out = length chunks
    /\ Forall (fun enriched =>
                 exists chunk v,
                   In chunk chunks
                   /\ chunk_id enriched = chunk_id chunk
                   /\ chunk_text enriched = chunk_text chunk
                   /\ chunk_metadata enriched = chunk_metadata chunk
                   /\ chunk_embedding enriched = Some v) out.
Proof.
  intros Hextract Hw Hmodel.
  pose proof (extracted_have_required_keys doc file chunks Hextract) as Hreq.
  destruct (embed_texts_spec self chunks Hw Hmodel) as (embeddings & self' & Hlen & Hrun).
  eexists _, self'. split; [exact Hrun|]. split.
  - rewrite length_app, hits_of_length, attach_all_length by exact Hlen.
    unfold Spec.is_miss. rewrite partition_length, validate_length.
    rewrite List.Forall_forall in Hreq. now rewrite (filter_all _ _ Hreq).
  - assert (Hone : forall validated v, In validated (validate chunks) ->
              exists chunk w,
                In chunk chunks
                /\ chunk_id (set_embedding validated v) = chunk_id chunk
                /\ chunk_text (set_embedding validated v) = chunk_text chunk
                /\ chunk_metadata (set_embedding validated v) = chunk_metadata chunk
                /\ chunk_embedding (set_embedding validated v) = Some w).
    { intros validated v Hin.
      destruct (validate_In chunks validated Hin) as (chunk & Hc & Hi & Ht & Hm).
      exists chunk, v. cbn [set_embedding chunk_id chunk_text chunk_metadata chunk_embedding].
      now repeat split. }
    apply Forall_app. split.
    + apply hits_of_Forall. intros validated x v Hin. now apply Hone.
    + apply attach_all_Forall. intros validated v Hin. apply Hone.
      now apply filter_In in Hin as [Hin _].
Qed.

End Pipeline.

(* ===================================================================== *)
(** * The further properties on the sample data                           *)
(* ===================================================================== *)

Section BehaviourExamples.
Import Py Constants Examples.

Lemma fingerprint_ignores_surrounding_space_witness :
  EmbeddingCache._compute_hash (("  " : str) ++ ("GET /users" : str) ++ [nl; tab]) None
  = EmbeddingCache._compute_hash ("GET /users" : str) None.
Proof.
  apply (fingerprint_ignores_surrounding_space ("GET /users" : str) ("  " : str) [nl; tab] None);
    reflexivity.
Defined.

Lemma fingerprint_ignores_key_order_witness :
  EmbeddingCache._compute_hash ("GET /users" : str)
    (Some [ ("type" : str, JStr "swagger"); ("origin" : str, JStr "api.yaml") ])
  = EmbeddingCache._compute_hash ("GET /users" : str)
      (Some [ ("origin" : str, JStr "api.yaml"); ("type" : str, JStr "swagger") ]).
Proof.
  apply (fingerprint_ignores_key_order ("GET /users" : str)).
  - apply perm_swap.
  - cbn [map fst]. apply NoDup_cons. split; [|apply NoDup_singleton].
    intros Hin. apply list_elem_of_singleton in Hin. discriminate Hin.
Defined.

Lemma add_on_lock_timeout_witness :
  exists self',
    EmbeddingCache.add locked_cache ("GET /users" : str) [1%Z] None = (Raise Timeout, self')
    /\ EmbeddingCache.get self' ("GET /users" : str) None = Some [1%Z]
    /\ EmbeddingCache.index_file self' = EmbeddingCache.index_file locked_cache.
Proof.
  apply (add_on_lock_timeout locked_cache ("GET /users" : str) [1%Z] None). reflexivity.
Defined.

Lemma add_keeps_other_entries_witness :
  EmbeddingCache.get (snd (EmbeddingCache.add warm_cache ("first text" : str) [1%Z] None))
    ("second text" : str) (EmbeddingEngine.type_metadata (value TEXT))
  = EmbeddingCache.get warm_cache ("second text" : str) (EmbeddingEngine.type_metadata (value TEXT))
  /\ EmbeddingCache.size warm_cache
     <= EmbeddingCache.size (snd (EmbeddingCache.add warm_cache ("first text" : str) [1%Z] None))
     <= S (EmbeddingCache.size warm_cache).
Proof.
  apply (add_keeps_other_entries warm_cache ("first text" : str) [1%Z] None ("second text" : str)
           (EmbeddingEngine.type_metadata (value TEXT))).
  intros Hsame. vm_compute in Hsame. discriminate Hsame.
Defined.


Lemma bits_round_trip (p : positive) : of_bits (bits_of p) = Some p.
Proof. induction p as [p IH|p IH|]; cbn [bits_of of_bits]; try rewrite IH; reflexivity. Qed.

Lemma bits_utf8_valid (p : positive) : utf8_valid (bits_of p) = true.
Proof. induction p as [p IH|p IH|]; cbn [bits_of]; try exact IH; reflexivity. Qed.

Lemma bits_codec_round_trip (index : gmap str (list Z)) :
  utf8_valid (@EmbeddingCache.dump_index Z bits_codec index) = true
  /\ @EmbeddingCache.load_index Z bits_codec (@EmbeddingCache.dump_index Z bits_codec index)
     = Ok index.
Proof.
  cbn [EmbeddingCache.dump_index EmbeddingCache.load_index bits_codec]. split.
  - apply bits_utf8_valid.
  - rewrite bits_round_trip. now rewrite decode_encode.
Qed.

Lemma index_survives_restart_witness :
  exists restarted,
    @EmbeddingCache.init Z bits_codec
      (EmbeddingCache.index_file
         (snd (@EmbeddingCache.add Z bits_codec bits_cache ("GET /users" : str) [1%Z] None)))
      true
    = Ok restarted
    /\ EmbeddingCache._cache restarted
       = EmbeddingCache._cache
           (snd (@EmbeddingCache.add Z bits_codec bits_cache ("GET /users" : str) [1%Z] None))
    /\ @EmbeddingCache.get Z restarted ("GET /users" : str) None = Some [1%Z].
Proof.
  apply (@index_survives_restart Z bits_codec bits_cache _ ("GET /users" : str) [1%Z] None).
  - exact bits_codec_round_trip.
  - reflexivity.
Defined.

Lemma embed_texts_returns_complete_chunks_witness :
  exists out self',
    EmbeddingEngine.embed_texts cold_engine [chunk_a; chunk_b] = (Ok out, self')
    /\ length out = length (List.filter EmbeddingEngine.has_required_keys [chunk_a; chunk_b])
    /\ Forall (fun chunk =>
                 exists i ty text v,
                   chunk_id chunk = Some i /\ chunk_type chunk = Some ty
                   /\ chunk_text chunk = Some text /\ chunk_embedding chunk = Some v
                   /\ (In ty values \/ ty = value TEXT)) out.
Proof.
  apply (embed_texts_returns_complete_chunks cold_engine [chunk_a; chunk_b]).
  - exact empty_cache_writable.
  - exact unit_model_answers.
Defined.

Lemma embed_texts_model_failure_witness :
  EmbeddingEngine.embed_texts down_engine [chunk_a]
  = (Raise (ValueError "service unavailable"), down_engine).
Proof.
  apply (embed_texts_model_failure down_engine [chunk_a] (ValueError "service unavailable")).
  - reflexivity.
  - exists (EmbeddingEngine.set_type chunk_a (value TEXT)). split; [now left|].
    vm_compute. reflexivity.
Defined.



Lemma declared_types_become_free_text_witness :
  exists out self',
    EmbeddingEngine.embed_texts cold_engine [chunk_a; chunk_b] = (Ok out, self')
    /\ Forall (fun chunk => chunk_type chunk = Some (value TEXT)) out.
Proof.
  apply (declared_types_become_free_text cold_engine [chunk_a; chunk_b]).
  - exact empty_cache_writable.
  - exact unit_model_answers.
  - repeat constructor; now exists SWAGGER.
Defined.

Lemma enrich_lookup_witness :
  assoc METADATA_FIELD_TYPE
    (VectorStore.enrich [ (METADATA_FIELD_TYPE, "swagger" : str); ("method" : str, "get" : str) ]
       ("uuid-0" : str))
  = match assoc METADATA_FIELD_TYPE
            [ (METADATA_FIELD_TYPE, "swagger" : str); ("method" : str, "get" : str) ] with
    | Some v => Some v
    | None => assoc METADATA_FIELD_TYPE (Props.default_metadata ("uuid-0" : str))
    end.
Proof.
  apply (enrich_lookup [ (METADATA_FIELD_TYPE, "swagger" : str); ("method" : str, "get" : str) ]
           ("uuid-0" : str) METADATA_FIELD_TYPE).
  cbn [map fst]. apply NoDup_cons. split; [|apply NoDup_singleton].
  intros Hin. apply list_elem_of_singleton in Hin. discriminate Hin.
Defined.

Lemma add_documents_hands_over_aligned_records_witness :
  exists records,
    map VectorStore.rec_id records = ["uuid-0" : str; "uuid-1" : str]
    /\ map VectorStore.rec_document records = ["one" : str; "two" : str]
    /\ map VectorStore.rec_embedding records = [[1%Z]; [2%Z]].
Proof.
  destruct (add_documents_hands_over_aligned_records appending_add empty_store SWAGGER_EMBEDDINGS
              ["one" : str; "two" : str] [[1%Z]; [2%Z]] None None eq_refl eq_refl)
    as (records & Hids & Hdocuments & Hembeddings & _).
  exists records. split; [exact Hids|]. split; [exact Hdocuments|exact Hembeddings].
Defined.

Lemma extract_endpoints_membership_witness :
  In ("get" : str, "/users/{id}" : str, users_operation) [users_endpoint]
  <-> exists methods method,
        In ("/users/{id}" : str, JDict methods)
           [ ("/users/{id}" : str, JDict [ ("get" : str, users_operation) ]) ]
        /\ In (method, users_operation) methods
        /\ In (lower method) SwaggerChunker.allowed_methods
        /\ ("get" : str) = lower method.
Proof.
  apply (extract_endpoints_membership users_chunker
           [ ("/users/{id}" : str, JDict [ ("get" : str, users_operation) ]) ] [users_endpoint]);
    reflexivity.
Defined.

Lemma extract_chunks_appends_witness :
  exists new,
    [users_chunk] = SwaggerChunker.chunks users_chunker ++ new
    /\ SwaggerChunker.chunks (snd (SwaggerChunker.extract_chunks users_chunker)) = [users_chunk]
    /\ fst (SwaggerChunker.extract_chunks (snd (SwaggerChunker.extract_chunks users_chunker)))
       = Ok ([users_chunk] ++ new).
Proof.
  apply (extract_chunks_appends users_chunker
           (snd (SwaggerChunker.extract_chunks users_chunker)) [users_chunk]).
  vm_compute. reflexivity.
Defined.

Lemma extract_chunks_failure_keeps_partial_witness :
  let self := chunker_of items_doc in
  let e := KeyError ("Unable to resolve $ref: #/components/parameters/Missing" : str) in
  (SwaggerChunker._extract_endpoints self = Raise e
   /\ snd (SwaggerChunker.extract_chunks self) = self)
  \/ exists endpoints before endpoint after done,
       SwaggerChunker._extract_endpoints self = Ok endpoints
       /\ endpoints = before ++ endpoint :: after
       /\ mapM (SwaggerChunker.operation_chunk self) before = Ok done
       /\ SwaggerChunker.operation_chunk self endpoint = Raise e
       /\ SwaggerChunker.chunks (snd (SwaggerChunker.extract_chunks self))
          = SwaggerChunker.chunks self ++ done.
Proof.
  apply (extract_chunks_failure_keeps_partial (chunker_of items_doc)
           (snd (SwaggerChunker.extract_chunks (chunker_of items_doc)))
           (KeyError ("Unable to resolve $ref: #/components/parameters/Missing" : str))).
  vm_compute. reflexivity.
Defined.

Lemma extract_parameters_shape_witness :
  exists summaries,
    match SwaggerChunker._extract_parameters users_chunker users_operation with
    | Ok v => v
    | Raise _ => JNull
    end = JList summaries
    /\ length summaries = 1
    /\ Forall (fun summary =>
                 exists d, summary = JDict d
                           /\ map fst d = ["name" : str; "in" : str; "required" : str;
                                           "type" : str; "description" : str])
              summaries.
Proof.
  apply (extract_parameters_shape users_chunker users_operation
           [ JDict [ ("name" : str, JStr "id"); ("in" : str, JStr "path");
                     ("required" : str, JBool true);
                     ("schema" : str, JDict [ ("type" : str, JStr "string") ]) ] ]);
    reflexivity.
Defined.

Lemma extract_responses_keys_witness :
  exists d,
    match SwaggerChunker._extract_responses users_chunker users_operation with
    | Ok v => v
    | Raise _ => JNull
    end = JDict d
    /\ forall status_code,
         has_key status_code d = true
         <-> exists resp media rest,
               In (status_code, resp)
                  match get_default users_operation "responses" (JDict []) with
                  | Ok (JDict responses) => responses
                  | _ => []
                  end
               /\ get_default resp "content" (JDict []) = Ok (JDict (media :: rest)).
Proof.
  apply (extract_responses_keys users_chunker users_operation); reflexivity.
Defined.

Lemma add_documents_failure_writes_nothing_witness :
  Props.records_of
    (snd (VectorStore.add_documents (fun _ _ => Raise (ValueError "refused")) one_record_store
            SWAGGER_EMBEDDINGS ["one" : str] [[1%Z]] None None))
    (collection_value SWAGGER_EMBEDDINGS)
  = Props.records_of one_record_store (collection_value SWAGGER_EMBEDDINGS).
Proof.
  apply (add_documents_failure_writes_nothing (fun _ _ => Raise (ValueError "refused"))
           one_record_store _ SWAGGER_EMBEDDINGS ["one" : str] [[1%Z]] None None
           (ValueError "refused")).
  reflexivity.
Defined.

Lemma upsert_embeddings_failure_writes_nothing_witness :
  Props.records_of
    (snd (VectorStore.upsert_embeddings (fun _ => Raise (ValueError "service unavailable"))
            appending_upsert one_record_store SWAGGER_EMBEDDINGS ["one" : str] None None))
    (collection_value SWAGGER_EMBEDDINGS)
  = Props.records_of one_record_store (collection_value SWAGGER_EMBEDDINGS).
Proof.
  apply (upsert_embeddings_failure_writes_nothing
           (fun _ => Raise (ValueError "service unavailable")) appending_upsert
           one_record_store _ SWAGGER_EMBEDDINGS ["one" : str] None None
           (ValueError "service unavailable")).
  reflexivity.
Defined.

Lemma query_similar_transposes_witness :
  exists out self',
    VectorStore.query_similar first_record_query one_record_store SWAGGER_EMBEDDINGS
      ["users" : str; "pets" : str] 5
    = (Ok out, self')
    /\ map VectorStore.answer_query out = ["users" : str; "pets" : str]
    /\ map (fun a => map VectorStore.similar_id (VectorStore.answer_matches a)) out
       = [["r1" : str]; ["r1" : str]].
Proof.
  destruct (query_similar_transposes first_record_query one_record_store SWAGGER_EMBEDDINGS
              ["users" : str; "pets" : str] 5 _ eq_refl)
    as (out & self' & Hrun & Hqueries & Hids & _).
  - repeat split; repeat constructor.
  - exists out, self'. split; [exact Hrun|]. split; [exact Hqueries|exact Hids].
Defined.

Lemma parse_schema_properties_partition_witness :
  let properties := match get_default pet_schema "properties" (JDict []) with
                    | Ok (JDict properties) => properties
                    | _ => []
                    end in
  let parsed := match SchemaParser.parse_schema_properties pet_schema (Some ["id" : str]) with
                | Ok parsed => parsed
                | Raise _ => ([], [])
                end in
  Forall2 (fun property info =>
             SchemaParser.field_info (fst property) (snd property) = Ok info
             /\ getitem info "name" = Ok (JStr (fst property)))
    (List.filter (Props.listed (default [] (Some ["id" : str]))) properties) (fst parsed)
  /\ Forall2 (fun property info =>
                SchemaParser.field_info (fst property) (snd property) = Ok info
                /\ getitem info "name" = Ok (JStr (fst property)))
       (List.filter (fun property => negb (Props.listed (default [] (Some ["id" : str])) property))
          properties)
       (snd parsed).
Proof.
  apply (parse_schema_properties_partition pet_schema); reflexivity.
Defined.

Lemma flatten_agrees_with_parse_witness :
  exists parsed required_props optional_props,
    match SchemaParser.flatten_schema_to_summary pet_schema with
    | Ok out => out
    | Raise _ => JNull
    end = SchemaParser.summary_dict parsed
    /\ SchemaParser.parse_schema_properties pet_schema (Some ["id" : str])
       = Ok (required_props, optional_props)
    /\ Forall2 (fun name info => getitem info "name" = Ok (JStr name))
         (SchemaParser.required_fields parsed) required_props
    /\ Forall2 (fun name info => getitem info "name" = Ok (JStr name))
         (SchemaParser.optional_fields parsed) optional_props.
Proof.
  apply (flatten_agrees_with_parse pet_schema ["id" : str]); reflexivity.
Defined.

Lemma extracted_chunks_are_embedded_witness :
  exists out self',
    EmbeddingEngine.embed_texts cold_engine [users_chunk] = (Ok out, self')
    /\ length out = length [users_chunk]
    /\ Forall (fun enriched =>
                 exists chunk v,
                   In chunk [users_chunk]
                   /\ chunk_id enriched = chunk_id chunk
                   /\ chunk_text enriched = chunk_text chunk
                   /\ chunk_metadata enriched = chunk_metadata chunk
                   /\ chunk_embedding enriched = Some v) out.
Proof.
  apply (extracted_chunks_are_embedded cold_engine users_doc ("specs/api.yaml" : str) [users_chunk]).
  - vm_compute. reflexivity.
  - exact empty_cache_writable.
  - exact unit_model_answers.
Defined.

End BehaviourExamples.
